(** * ACI contract parser: the data-collection traversal of [contract_parser.py]

    A shallow embedding of [ACIAnalyzer] and of the batch half of
    [ReportGenerator].  The controller is reached through [ACISession.get]
    only, so every analyser method becomes a program over one read effect
    ([Get]) and one write effect ([Write], the report file); Python
    exceptions are the [Raise] leaves.  Programs are interpreted against a
    controller that may change between two requests ([run]) and against a
    fixed table of responses ([eval], [trace]).  The statements C1 to C10
    are the testable properties of the specification.

    The text the report and the console are made of -- the columns of
    [ReportGenerator], the prompts and the display of [InteractiveMode],
    the address [ACISession] sends a request to -- is embedded as functions
    on strings, with Python's character counts; the statements X1 to X20
    are further properties of the analyser, the report and that text, read
    off the code. *)

From stdpp Require Import base gmap strings list.
From Stdlib Require Import String Ascii Sorted OrderedTypeEx ZArith.

Local Open Scope string_scope.
Local Open Scope list_scope.

(** ** JSON envelopes

    [ACISession.get] returns [Optional[Dict]]: [None] on any transport
    failure, otherwise the parsed body
    [{"totalCount": "...", "imdata": [ {"<class>": {"attributes": {...}}} ]}].
    Attribute values are strings (the analyser passes them on as
    [tenant_dn: str], [epg_dn: str], ...).  An item is a dict from class
    name to managed object, a managed object a dict whose "attributes" entry
    is a dict of strings; each subscript raises [KeyError] when the key is
    missing. *)

Abbreviation attrs := (gmap string string).
Abbreviation mo := (gmap string (gmap string string)).
Abbreviation item := (gmap string (gmap string (gmap string string))).

Record envelope : Type := Envelope {
  totalCount : option string;
  imdata : option (list item)
}.

Inductive exn : Type :=
| KeyError (k : string)
| IndexError
| AttributeError
| TypeError.

Inductive result (A : Type) : Type :=
| Ok (a : A)
| Err (e : exn).
Arguments Ok {A} a.
Arguments Err {A} e.

(** ** What the analyser returns and what the report writes *)

(** The dicts the analyser builds, one record per shape, one field per key:
    [{"name", "dn"}], [{"name", "dn", "vrfs"}], [{"ip", "description", "type"}]
    and [{"name", "type", "dn", "subnets"}]. *)
Record vrf : Type := Vrf { v_name : string; v_dn : string }.
Record tenant : Type := Tenant {
  t_name : string; t_dn : string; t_vrfs : list vrf }.
Record contract : Type := Contract { c_name : string; c_dn : string }.
Record subnet : Type := Subnet {
  s_ip : string; s_description : string; s_type : string }.
Record epg : Type := Epg {
  e_name : string; e_type : string; e_dn : string; e_subnets : list subnet }.

(** The [stats] dict of [generate_complete_report]. *)
Record stats : Type := Stats {
  st_contracts : nat; st_providers : nat; st_consumers : nat }.

(** One entry per group of [f.write] calls.  The column layout is a function
    of the arguments recorded here. *)
Inductive out : Type :=
| Header
| TenantHeader (t : tenant)
| ContractDetails (c : contract) (providers consumers : list epg)
| SummaryBanner
| SummaryFigures (tenants_analysed : nat) (s : stats).

Inductive event : Type :=
| Fetch (url_path : string)
| Wrote (o : out).

(** ** Programs *)

Inductive prog (A : Type) : Type :=
| Ret (a : A)
| Raise (e : exn)
| Get (url_path : string) (k : option envelope -> prog A)
| Write (o : out) (k : prog A).
Arguments Ret {A} a.
Arguments Raise {A} e.
Arguments Get {A} url_path k.
Arguments Write {A} o k.

Fixpoint bind {A B : Type} (p : prog A) (f : A -> prog B) : prog B :=
  match p with
  | Ret a => f a
  | Raise e => Raise e
  | Get u k => Get u (fun r => bind (k r) f)
  | Write o k => Write o (bind k f)
  end.

Notation "'let*' x ':=' p 'in' q" := (bind p (fun x => q))
  (at level 10, x name, p at level 100, q at level 200, only parsing).
Notation "'let*' ' pat ':=' p 'in' q" :=
  (bind p (fun x => match x with pat => q end))
  (at level 10, pat pattern, p at level 100, q at level 200, only parsing).

Definition session_get (url_path : string) : prog (option envelope) :=
  Get url_path Ret.

Definition f_write (o : out) : prog unit := Write o (Ret tt).

(** [for x in l: s = body(s, x)], the loop state threaded explicitly. *)
Fixpoint for_each {A S : Type} (body : S -> A -> prog S) (l : list A) (s : S)
  : prog S :=
  match l with
  | [] => Ret s
  | x :: l' => let* s' := body s x in for_each body l' s'
  end.

(** [[f(x) for x in l]] *)
Fixpoint comprehension {A B : Type} (f : A -> prog B) (l : list A)
  : prog (list B) :=
  match l with
  | [] => Ret []
  | x :: l' => let* y := f x in let* ys := comprehension f l' in Ret (y :: ys)
  end.

(** [[x for x in l if cond(x)]] *)
Fixpoint comprehension_if {A : Type} (cond : A -> prog bool) (l : list A)
  : prog (list A) :=
  match l with
  | [] => Ret []
  | x :: l' =>
      let* b := cond x in let* xs := comprehension_if cond l' in
      Ret (if b then x :: xs else xs)
  end.

(** ** Python primitives *)

(** [d[k]] on a dict. *)
Definition subscript {V : Type} (d : gmap string V) (k : string) : prog V :=
  match d !! k with
  | Some v => Ret v
  | None => Raise (KeyError k)
  end.

(** [item[cls]["attributes"]] *)
Definition attributes_of (it : item) (cls : string) : prog attrs :=
  let* o := subscript it cls in subscript o "attributes".

(** [d.get(k, "")] *)
Definition get_default (d : attrs) (k : string) : string :=
  default "" (d !! k).

(** Truth value of a response: [None] and the empty dict are falsy. *)
Definition truthy (data : option envelope) : bool :=
  match data with
  | None => false
  | Some d => bool_decide (is_Some (totalCount d)) || bool_decide (is_Some (imdata d))
  end.

(** [data.get("imdata", [])]; on [None] the attribute lookup fails. *)
Definition get_imdata_or_empty (data : option envelope) : prog (list item) :=
  match data with
  | None => Raise AttributeError
  | Some d => Ret (default [] (imdata d))
  end.

(** [not data.get("imdata")] : absent, or an empty list. *)
Definition no_imdata (data : option envelope) : prog bool :=
  match data with
  | None => Raise AttributeError
  | Some d => Ret (match imdata d with Some (_ :: _) => false | _ => true end)
  end.

(** [data["imdata"]] *)
Definition subscript_imdata (data : option envelope) : prog (list item) :=
  match data with
  | None => Raise TypeError
  | Some d =>
      match imdata d with
      | Some l => Ret l
      | None => Raise (KeyError "imdata")
      end
  end.

(** [l[0]] *)
Definition first {A : Type} (l : list A) : prog A :=
  match l with
  | x :: _ => Ret x
  | [] => Raise IndexError
  end.

(** [sub in s] on two strings. *)
Fixpoint str_in (sub s : string) : bool :=
  String.prefix sub s ||
  match s with
  | EmptyString => false
  | String _ s' => str_in sub s'
  end.

(** [sorted(l, key=...)] with string keys: stable, ascending.  Strings are
    compared byte by byte, which on UTF-8 text is the order of the code
    points. *)
Fixpoint insert_sorted {A : Type} (key : A -> string) (x : A) (l : list A)
  : list A :=
  match l with
  | [] => [x]
  | y :: l' =>
      if String.ltb (key y) (key x) then y :: insert_sorted key x l'
      else x :: y :: l'
  end.

Definition sorted {A : Type} (l : list A) (key : A -> string) : list A :=
  foldr (insert_sorted key) [] l.

(** ** Configuration *)

Definition EXCLUDED_TENANTS : gset string := {[ "mgmt"; "infra"; "common" ]}.

(** ** ACIAnalyzer *)

(** The two f-strings every object query is built from:
    [f"/node/mo/{dn}.json"] and
    [f"/node/mo/{dn}.json?query-target=children&target-subtree-class={cls}"]. *)
Definition mo_url (dn : string) : string := "/node/mo/" ++ dn ++ ".json".

Definition children_url (dn cls : string) : string :=
  "/node/mo/" ++ dn ++ ".json?query-target=children&target-subtree-class=" ++ cls.

Definition _get_tenant_vrfs (tenant_dn : string) : prog (list vrf) :=
  let* data := session_get (children_url tenant_dn "fvCtx") in
  if negb (truthy data) then Ret []
  else
    let* l := get_imdata_or_empty data in
    comprehension (fun it =>
      let* a := attributes_of it "fvCtx" in let* name := subscript a "name" in
      let* a' := attributes_of it "fvCtx" in let* dn := subscript a' "dn" in
      Ret (Vrf name dn)) l.

Definition get_tenants : prog (list tenant) :=
  let* data := session_get "/node/class/fvTenant.json" in
  if negb (truthy data) then Ret []
  else
    let* l := get_imdata_or_empty data in
    let* tenants := for_each (fun tenants it =>
      let* a := attributes_of it "fvTenant" in let* tenant_name := subscript a "name" in
      if bool_decide (tenant_name ∉ EXCLUDED_TENANTS) then
        let* a' := attributes_of it "fvTenant" in let* tenant_dn := subscript a' "dn" in
        let* vrfs := _get_tenant_vrfs tenant_dn in
        Ret (tenants ++ [Tenant tenant_name tenant_dn vrfs])
      else Ret tenants) l [] in
    Ret (sorted tenants t_name).

Definition get_contracts (tenant_dn : string) : prog (list contract) :=
  let* data := session_get (children_url tenant_dn "vzBrCP") in
  if negb (truthy data) then Ret []
  else
    let* l := get_imdata_or_empty data in
    comprehension (fun it =>
      let* a := attributes_of it "vzBrCP" in let* name := subscript a "name" in
      let* a' := attributes_of it "vzBrCP" in let* dn := subscript a' "dn" in
      Ret (Contract name dn)) l.

Definition _get_internal_subnets (epg_dn : string) : prog (list subnet) :=
  let* data := session_get (children_url epg_dn "fvRsBd") in
  if negb (truthy data) then Ret []
  else
    let* e := no_imdata data in
    if e then Ret []
    else
      let* l := subscript_imdata data in let* it := first l in
      let* a := attributes_of it "fvRsBd" in let* bd_dn := subscript a "tDn" in
      let* subnet_data := session_get (children_url bd_dn "fvSubnet") in
      if negb (truthy subnet_data) then Ret []
      else
        let* e' := no_imdata subnet_data in
        if e' then Ret []
        else
          let* l' := subscript_imdata subnet_data in
          comprehension (fun it =>
            let* a := attributes_of it "fvSubnet" in let* ip := subscript a "ip" in
            let* a' := attributes_of it "fvSubnet" in
            Ret (Subnet ip (get_default a' "descr") "internal")) l'.

Definition _get_external_subnets (ext_epg_dn : string) : prog (list subnet) :=
  let* data := session_get (children_url ext_epg_dn "l3extSubnet") in
  if negb (truthy data) then Ret []
  else
    let* e := no_imdata data in
    if e then Ret []
    else
      let* l := subscript_imdata data in
      for_each (fun subnets it =>
        let* subnet_attrs := attributes_of it "l3extSubnet" in
        let scope := get_default subnet_attrs "scope" in
        let subnet_type := if str_in "export-rtctrl" scope then "exp" else "ext" in
        let* ip := subscript subnet_attrs "ip" in
        Ret (subnets ++ [Subnet ip (get_default subnet_attrs "name") subnet_type]))
        l [].

Definition _get_external_epg_info (epg_dn : string) : prog (option epg) :=
  let* data := session_get (mo_url epg_dn) in
  if negb (truthy data) then Ret None
  else
    let* e := no_imdata data in
    if e then Ret None
    else
      let* l := subscript_imdata data in let* it := first l in
      let* epg_data := attributes_of it "l3extInstP" in
      let* subnets := _get_external_subnets epg_dn in
      let* name := subscript epg_data "name" in
      Ret (Some (Epg name "external" epg_dn subnets)).

Definition _get_internal_epg_info (epg_dn : string) : prog (option epg) :=
  let* data := session_get (mo_url epg_dn) in
  if negb (truthy data) then Ret None
  else
    let* e := no_imdata data in
    if e then Ret None
    else
      let* l := subscript_imdata data in let* it := first l in
      let* epg_data := attributes_of it "fvAEPg" in
      let* subnets := _get_internal_subnets epg_dn in
      let* name := subscript epg_data "name" in
      Ret (Some (Epg name "internal" epg_dn subnets)).

Definition _get_epg_info (epg_dn : string) : prog (option epg) :=
  if str_in "/out-" epg_dn then _get_external_epg_info epg_dn
  else _get_internal_epg_info epg_dn.

(** [if epg_info:] -- a dict with four keys is always truthy. *)
Definition append_if_resolved (l : list epg) (epg_info : option epg) : list epg :=
  match epg_info with
  | Some e => l ++ [e]
  | None => l
  end.

(** Body of the [for item in data.get("imdata", [])] loop of
    [get_contract_relationships]; the two lists are the loop state. *)
Definition resolve_relation (acc : list epg * list epg) (it : item)
  : prog (list epg * list epg) :=
  let '(providers, consumers) := acc in
  if bool_decide (is_Some (it !! "vzRtProv")) then
    let* a := attributes_of it "vzRtProv" in
    let* target_dn := subscript a "tDn" in
    let* epg_info := _get_epg_info target_dn in
    Ret (append_if_resolved providers epg_info, consumers)
  else if bool_decide (is_Some (it !! "vzRtCons")) then
    let* a := attributes_of it "vzRtCons" in
    let* target_dn := subscript a "tDn" in
    let* epg_info := _get_epg_info target_dn in
    Ret (providers, append_if_resolved consumers epg_info)
  else Ret (providers, consumers).

Definition get_contract_relationships (contract_dn : string)
  : prog (list epg * list epg) :=
  let* data := session_get (children_url contract_dn "vzRtProv,vzRtCons") in
  if negb (truthy data) then Ret ([], [])
  else
    let* l := get_imdata_or_empty data in
    for_each resolve_relation l ([], []).

(** ** ReportGenerator (batch report) *)

Definition _write_header : prog unit := f_write Header.

Definition _write_contract_details (c : contract) (providers consumers : list epg)
  : prog unit :=
  f_write (ContractDetails c providers consumers).

(** [not l] on a list. *)
Definition is_empty {A : Type} (l : list A) : bool :=
  match l with [] => true | _ => false end.

(** Body of the [for contract in sorted(contracts, ...)] loop. *)
Definition write_contract (st : stats) (c : contract) : prog stats :=
  let* '(providers, consumers) := get_contract_relationships (c_dn c) in
  if is_empty providers && is_empty consumers then Ret st
  else
    let st' := Stats (st_contracts st)
                     (st_providers st + List.length providers)
                     (st_consumers st + List.length consumers) in
    let* _ := _write_contract_details c providers consumers in
    Ret st'.

Definition _write_tenant_section (t : tenant) (contracts : list contract)
  (st : stats) : prog stats :=
  let* _ := f_write (TenantHeader t) in
  for_each write_contract (sorted contracts c_name) st.

(** [len([t for t in tenants if self.analyzer.get_contracts(t['dn'])])] *)
Definition tenants_with_contracts (tenants : list tenant) : prog nat :=
  let* l := comprehension_if (fun t =>
              let* cs := get_contracts (t_dn t) in Ret (negb (is_empty cs)))
              tenants in
  Ret (List.length l).

Definition _write_summary (tenants : list tenant) (st : stats) : prog unit :=
  let* _ := f_write SummaryBanner in
  let* n := tenants_with_contracts tenants in
  f_write (SummaryFigures n st).

(** Body of the [for tenant in tenants] loop of [generate_complete_report]. *)
Definition report_tenant (st : stats) (t : tenant) : prog stats :=
  let* contracts := get_contracts (t_dn t) in
  if is_empty contracts then Ret st
  else
    let st' := Stats (st_contracts st + List.length contracts)
                     (st_providers st) (st_consumers st) in
    _write_tenant_section t contracts st'.

(** The method ends by printing [stats['contracts']]; the embedding returns
    the whole [stats] dict instead. *)
Definition generate_complete_report : prog stats :=
  let* tenants := get_tenants in
  let st := Stats 0 0 0 in
  let* _ := _write_header in
  let* st' := for_each report_tenant tenants st in
  let* _ := _write_summary tenants st' in
  Ret st'.

(** ** Running a program *)

(** Against a controller with its own state [W]: the answer to a request
    and the state it leaves behind both depend on the state it finds. *)
Fixpoint run {W A : Type} (respond : W -> string -> option envelope * W)
  (p : prog A) (w : W) : result A * W * list event :=
  match p with
  | Ret a => (Ok a, w, [])
  | Raise e => (Err e, w, [])
  | Get u k =>
      let '(r, w') := respond w u in
      let '(x, w'', t) := run respond (k r) w' in
      (x, w'', Fetch u :: t)
  | Write o k =>
      let '(x, w', t) := run respond k w in
      (x, w', Wrote o :: t)
  end.

(** Against a fixed table of responses. *)
Fixpoint eval {A : Type} (api : string -> option envelope) (p : prog A)
  : result A :=
  match p with
  | Ret a => Ok a
  | Raise e => Err e
  | Get u k => eval api (k (api u))
  | Write _ k => eval api k
  end.

Fixpoint trace {A : Type} (api : string -> option envelope) (p : prog A)
  : list event :=
  match p with
  | Ret _ | Raise _ => []
  | Get u k => Fetch u :: trace api (k (api u))
  | Write o k => Wrote o :: trace api k
  end.

(** The report file: what was written, in order. *)
Definition written (t : list event) : list out :=
  omap (fun ev => match ev with Wrote o => Some o | Fetch _ => None end) t.


(** ** Vocabulary of the statements *)

(** The records of a response; a failed request, an empty body and a body
    without "imdata" all carry none. *)
Definition records (data : option envelope) : list item :=
  match data with
  | Some d => default [] (imdata d)
  | None => []
  end.

(** [it[cls]["attributes"]] and [it[cls]["attributes"][k]] when every key on
    the way is present. *)
Definition attributes (it : item) (cls : string) : option attrs :=
  it !! cls ≫= (fun o => o !! "attributes").

Definition attribute (it : item) (cls k : string) : option string :=
  attributes it cls ≫= (fun a => a !! k).

(** [s] ends with [suffix]. *)
Fixpoint ends_with (s suffix : string) : bool :=
  String.eqb s suffix ||
  match s with
  | EmptyString => false
  | String _ s' => ends_with s' suffix
  end.

Fixpoint last_char (s : string) : option ascii :=
  match s with
  | EmptyString => None
  | String a EmptyString => Some a
  | String _ s' => last_char s'
  end.

(** The Bridge-Domain lookups among the events of a run: the requests for the
    [fvRsBd] children of some object. *)
Definition is_bd_lookup (ev : event) : bool :=
  match ev with
  | Fetch u => ends_with u "?query-target=children&target-subtree-class=fvRsBd"
  | Wrote _ => false
  end.

Definition bd_lookups (t : list event) : nat :=
  List.length (List.filter is_bd_lookup t).

(** Ascending order of the keys, as [sorted] leaves them. *)
Definition ascending {A : Type} (key : A -> string) (l : list A) : Prop :=
  StronglySorted (fun a b => String.leb (key a) (key b) = true) l.

(** The EPG a relation record contributes to the provider list, and to the
    consumer list, of its contract: the record's role is the first of the
    two relation classes it carries, and a target that does not resolve
    contributes nothing. *)
Definition resolved (api : string -> option envelope) (target_dn : string)
  : option epg :=
  match eval api (_get_epg_info target_dn) with
  | Ok r => r
  | Err _ => None
  end.

Definition provider_of (api : string -> option envelope) (it : item)
  : option epg :=
  if bool_decide (is_Some (it !! "vzRtProv"))
  then attribute it "vzRtProv" "tDn" ≫= resolved api
  else None.

Definition consumer_of (api : string -> option envelope) (it : item)
  : option epg :=
  if bool_decide (is_Some (it !! "vzRtProv")) then None
  else if bool_decide (is_Some (it !! "vzRtCons"))
  then attribute it "vzRtCons" "tDn" ≫= resolved api
  else None.

(** What [_get_external_subnets] makes of one [l3extSubnet] record, and
    [_get_internal_subnets] of one [fvSubnet] record. *)
Definition external_subnet (it : item) (s : subnet) : Prop :=
  exists a ip,
    attributes it "l3extSubnet" = Some a /\ a !! "ip" = Some ip /\
    s = Subnet ip (get_default a "name")
          (if str_in "export-rtctrl" (get_default a "scope") then "exp" else "ext").

Definition internal_subnet (it : item) (s : subnet) : Prop :=
  exists a ip,
    attributes it "fvSubnet" = Some a /\ a !! "ip" = Some ip /\
    s = Subnet ip (get_default a "descr") "internal".

(** Programs that never write to the report. *)
Inductive reads_only {A : Type} : prog A -> Prop :=
| ro_ret (a : A) : reads_only (Ret a)
| ro_raise (e : exn) : reads_only (Raise e)
| ro_get (u : string) (k : option envelope -> prog A) :
    (forall r, reads_only (k r)) -> reads_only (Get u k).

(** Programs that are done: a returned value or a raised exception. *)
Definition is_value {A : Type} (p : prog A) : Prop :=
  match p with
  | Ret _ | Raise _ => True
  | Get _ _ | Write _ _ => False
  end.

(** The request [get_contracts] sends for a tenant, and whether the answer
    of a table to it holds a contract. *)
Definition contracts_url (t : tenant) : string := children_url (t_dn t) "vzBrCP".

Definition has_contracts (api : string -> option envelope) (t : tenant) : bool :=
  negb (is_empty (records (api (contracts_url t)))).

(** What a contract adds to the report body: nothing when neither list has
    an EPG. *)
Definition contract_entry (api : string -> option envelope) (c : contract)
  : list out :=
  match eval api (get_contract_relationships (c_dn c)) with
  | Ok (providers, consumers) =>
      if is_empty providers && is_empty consumers then []
      else [ContractDetails c providers consumers]
  | Err _ => []
  end.

(** A controller whose answers are not altered by the requests it serves. *)
Definition quiescent {W : Type} (respond : W -> string -> option envelope * W)
  : Prop :=
  forall w u u', fst (respond (snd (respond w u)) u') = fst (respond w u').

(** ** A fabric to run on

    The end-to-end scenario of the specification (tenant T1, contract C1,
    provider EPG-A behind Bridge Domain BD1, consumer external EPG-B), with
    what the other statements need around it: the excluded tenant "infra",
    a tenant A0 whose VRF and contract requests fail, a relation of C1 whose
    target is gone, a contract C0 of T1 and a tenant T2 whose only contract
    has no relation at all, and external subnets with a foreign scope and
    with none. *)

Definition record (cls : string) (kv : list (string * string)) : item :=
  {[ cls := {[ "attributes" := list_to_map kv ]} ]}.

Definition response (count : string) (l : list item) : option envelope :=
  Some (Envelope (Some count) (Some l)).

Definition fabric (u : string) : option envelope :=
  if String.eqb u "/node/class/fvTenant.json" then
    response "4"
      [record "fvTenant" [("name", "infra"); ("dn", "uni/tn-infra")];
       record "fvTenant" [("name", "T2"); ("dn", "uni/tn-T2")];
       record "fvTenant" [("name", "T1"); ("dn", "uni/tn-T1")];
       record "fvTenant" [("name", "A0"); ("dn", "uni/tn-A0")]]
  else if String.eqb u (children_url "uni/tn-T1" "fvCtx") then
    response "1" [record "fvCtx" [("name", "V1"); ("dn", "uni/tn-T1/ctx-V1")]]
  else if String.eqb u (children_url "uni/tn-T2" "fvCtx") then
    response "0" []
  else if String.eqb u (children_url "uni/tn-T1" "vzBrCP") then
    response "2"
      [record "vzBrCP" [("name", "C1"); ("dn", "uni/tn-T1/brc-C1")];
       record "vzBrCP" [("name", "C0"); ("dn", "uni/tn-T1/brc-C0")]]
  else if String.eqb u (children_url "uni/tn-T2" "vzBrCP") then
    response "1" [record "vzBrCP" [("name", "C2"); ("dn", "uni/tn-T2/brc-C2")]]
  else if String.eqb u (children_url "uni/tn-T1/brc-C1" "vzRtProv,vzRtCons") then
    response "3"
      [record "vzRtProv" [("tDn", "uni/tn-T1/ap-A/epg-EPG-A")];
       record "vzRtCons" [("tDn", "uni/tn-T1/ap-A/epg-gone")];
       record "vzRtCons" [("tDn", "uni/tn-T1/out-L3/instP-EPG-B")]]
  else if String.eqb u (children_url "uni/tn-T1/brc-C0" "vzRtProv,vzRtCons") then
    response "0" []
  else if String.eqb u (mo_url "uni/tn-T1/ap-A/epg-EPG-A") then
    response "1" [record "fvAEPg" [("name", "EPG-A")]]
  else if String.eqb u (children_url "uni/tn-T1/ap-A/epg-EPG-A" "fvRsBd") then
    response "1" [record "fvRsBd" [("tDn", "uni/tn-T1/BD-BD1")]]
  else if String.eqb u (children_url "uni/tn-T1/BD-BD1" "fvSubnet") then
    response "1" [record "fvSubnet" [("ip", "10.0.0.0/24"); ("descr", "servers")]]
  else if String.eqb u (mo_url "uni/tn-T1/out-L3/instP-EPG-B") then
    response "1" [record "l3extInstP" [("name", "EPG-B")]]
  else if String.eqb u (children_url "uni/tn-T1/out-L3/instP-EPG-B" "l3extSubnet") then
    response "3"
      [record "l3extSubnet" [("ip", "20.0.0.0/24"); ("scope", "export-rtctrl");
                             ("name", "partner"); ("descr", "unused")];
       record "l3extSubnet" [("ip", "30.0.0.0/8"); ("scope", "import-security")];
       record "l3extSubnet" [("ip", "40.0.0.0/8")]]
  else None.

Definition EPG_A : epg :=
  Epg "EPG-A" "internal" "uni/tn-T1/ap-A/epg-EPG-A"
    [Subnet "10.0.0.0/24" "servers" "internal"].

Definition EPG_B : epg :=
  Epg "EPG-B" "external" "uni/tn-T1/out-L3/instP-EPG-B"
    [Subnet "20.0.0.0/24" "partner" "exp";
     Subnet "30.0.0.0/8" "" "ext";
     Subnet "40.0.0.0/8" "" "ext"].

Definition T1 : tenant := Tenant "T1" "uni/tn-T1" [Vrf "V1" "uni/tn-T1/ctx-V1"].
Definition C0 : contract := Contract "C0" "uni/tn-T1/brc-C0".
Definition C1 : contract := Contract "C1" "uni/tn-T1/brc-C1".

(** The fabric behind a controller that counts the requests it serves. *)
Definition counting (api : string -> option envelope) (n : nat) (u : string)
  : option envelope * nat :=
  (api u, S n).

(** The same controller losing every contract after its sixteenth request. *)
Definition forgetful (api : string -> option envelope) (n : nat) (u : string)
  : option envelope * nat :=
  (if (16 <=? n)%nat && ends_with u "target-subtree-class=vzBrCP" then None
   else api u, S n).

(** ** Text of the report and of the console

    Python's [len], slices and paddings count characters.  A string here is
    the UTF-8 text, so its characters are counted at their first bytes, the
    bytes that are not continuation bytes (10xxxxxx). *)

Definition is_continuation (b : ascii) : bool :=
  match b with Ascii _ _ _ _ _ _ b6 b7 => b7 && negb b6 end.

(** [len(s)] *)
Fixpoint len (s : string) : nat :=
  match s with
  | EmptyString => 0
  | String b s' => (if is_continuation b then 0 else 1) + len s'
  end.

(** [s[:n]] for [n >= 0]: the first [n] characters. *)
Fixpoint take_chars (n : nat) (s : string) : string :=
  match s with
  | EmptyString => EmptyString
  | String b s' =>
      if is_continuation b then String b (take_chars n s')
      else match n with
           | O => EmptyString
           | S n' => String b (take_chars n' s')
           end
  end.

(** [s[:k]]: a negative [k] counts from the end and stops at the start. *)
Definition slice_to (s : string) (k : Z) : string :=
  if (0 <=? k)%Z then take_chars (Z.to_nat k) s
  else take_chars (Z.to_nat (Z.of_nat (len s) + k)) s.

(** [s * n]: empty when [n <= 0]. *)
Fixpoint repeat_string (s : string) (n : nat) : string :=
  match n with
  | O => EmptyString
  | S n' => (s ++ repeat_string s n')%string
  end.

Definition times (s : string) (n : Z) : string :=
  repeat_string s (Z.to_nat n).

(** [l[i]] for an integer [i]: negative indices count from the end, and
    [None] stands for [IndexError]. *)
Definition list_index {A : Type} (l : list A) (i : Z) : option A :=
  if (0 <=? i)%Z then l !! Z.to_nat i
  else if (0 <=? Z.of_nat (List.length l) + i)%Z
       then l !! Z.to_nat (Z.of_nat (List.length l) + i)
       else None.

Definition newline : string := String (ascii_of_nat 10) EmptyString.

Definition REPORT_WIDTH : Z := 140.
Definition PROVIDER_COLUMN_WIDTH : Z := 65.
Definition CONSUMER_COLUMN_WIDTH : Z := 65.

Module Render.

(** What the layout code can raise. *)
Inductive exn : Type :=
| ValueError
| IndexError.

Inductive outcome (A : Type) : Type :=
| Returns (a : A)
| Raises (e : exn).
Arguments Returns {A} a.
Arguments Raises {A} e.

Definition and_then {A B : Type} (o : outcome A) (f : A -> outcome B)
  : outcome B :=
  match o with
  | Returns a => f a
  | Raises e => Raises e
  end.

(** [for x in l], one result per round, stopping at the first exception. *)
Fixpoint for_list {A B : Type} (f : A -> outcome B) (l : list A)
  : outcome (list B) :=
  match l with
  | [] => Returns []
  | x :: l' =>
      and_then (f x) (fun y =>
      and_then (for_list f l') (fun ys => Returns (y :: ys)))
  end.

(** [f"{s:<{width}}"]: padded on the right with spaces up to [width]
    characters; a negative width is not a format specification. *)
Definition format_left (s : string) (width : Z) : outcome string :=
  if (width <? 0)%Z then Raises ValueError
  else Returns (s ++ times " " (width - Z.of_nat (len s)))%string.

Definition subscript_list {A : Type} (l : list A) (i : Z) : outcome A :=
  match list_index l i with
  | Some x => Returns x
  | None => Raises IndexError
  end.

Definition _format_column_content (lines : list string) (index width : Z)
  : outcome string :=
  if (index <? Z.of_nat (List.length lines))%Z then
    and_then (subscript_list lines index) (fun content =>
    let content :=
      if (width <? Z.of_nat (len content))%Z
      then (slice_to content (width - 3) ++ "...")%string
      else content in
    format_left content width)
  else Returns (times " " width).

(** The text of one subnet in [_build_epg_lines]. *)
Definition subnet_display (epg_type : string) (s : subnet) : string :=
  if String.eqb epg_type "external" then
    let type_suffix := (" (" ++ s_type s ++ ")")%string in
    let desc_part :=
      if negb (String.eqb (s_description s) "") then
        let available_space :=
          (PROVIDER_COLUMN_WIDTH - 6 - Z.of_nat (len (s_ip s))
           - Z.of_nat (len type_suffix) - 2)%Z in
        if (available_space <? Z.of_nat (len (s_description s)))%Z
        then (" " ++ slice_to (s_description s) (available_space - 3) ++ "...")%string
        else (" " ++ s_description s)%string
      else "" in
    (s_ip s ++ type_suffix ++ desc_part)%string
  else
    let desc_part :=
      if negb (String.eqb (s_description s) "") then
        let available_space :=
          (PROVIDER_COLUMN_WIDTH - 6 - Z.of_nat (len (s_ip s)) - 2)%Z in
        if (available_space <? Z.of_nat (len (s_description s)))%Z
        then (" " ++ slice_to (s_description s) (available_space - 3) ++ "...")%string
        else (" " ++ s_description s)%string
      else "" in
    (s_ip s ++ desc_part)%string.

(** The lines one round of the [for epg_idx, epg in enumerate(epgs)] loop
    appends, [n_epgs] being [len(epgs)]. *)
Definition epg_lines (n_epgs epg_idx : nat) (e : epg) : list string :=
  let epg_type := if String.eqb (e_type e) "external" then "Ext-EPG" else "EPG" in
  [(epg_type ++ ": " ++ e_name e)%string] ++
  (if negb (is_empty (e_subnets e)) then
     imap (fun subnet_idx s =>
             let prefix :=
               if Nat.eqb subnet_idx (List.length (e_subnets e) - 1)
               then "  └─" else "  ├─" in
             (prefix ++ " " ++ subnet_display (e_type e) s)%string)
          (e_subnets e)
   else ["  └─ Aucun subnet"]) ++
  (if Nat.ltb epg_idx (n_epgs - 1) then [""] else []).

Definition _build_epg_lines (epgs : list epg) : list string :=
  mjoin (imap (epg_lines (List.length epgs)) epgs).

(** The strings [_write_contract_details] passes to [f.write], in order. *)
Definition _write_contract_details (c : contract)
  (providers consumers : list epg) : outcome (list string) :=
  and_then (format_left "PROVIDERS" PROVIDER_COLUMN_WIDTH) (fun provider_header =>
  let consumer_header := "CONSUMERS" in
  let separator_line :=
    (times "─" PROVIDER_COLUMN_WIDTH ++ " " ++ times "─" CONSUMER_COLUMN_WIDTH)%string in
  let provider_lines := _build_epg_lines providers in
  let consumer_lines := _build_epg_lines consumers in
  let max_lines :=
    Nat.max (List.length provider_lines) (List.length consumer_lines) in
  and_then (for_list (fun i =>
      and_then (_format_column_content provider_lines (Z.of_nat i)
                  PROVIDER_COLUMN_WIDTH) (fun prov_content =>
      and_then (if Nat.ltb i (List.length consumer_lines)
                then subscript_list consumer_lines (Z.of_nat i)
                else Returns "") (fun cons_content =>
      Returns ("  " ++ prov_content ++ " " ++ cons_content ++ newline)%string)))
    (seq 0 max_lines)) (fun rows =>
  Returns
    ([("CONTRACT: " ++ c_name c ++ newline)%string;
      ("  " ++ provider_header ++ " " ++ consumer_header ++ newline)%string;
      ("  " ++ separator_line ++ newline)%string] ++ rows ++ [newline]))).

(** The two strings [_write_tenant_section] writes before its contracts. *)
Definition tenant_header (t : tenant) : list string :=
  let vrf_list :=
    if negb (is_empty (t_vrfs t))
    then String.concat ", " (map v_name (t_vrfs t))
    else "Aucun VRF" in
  let tenant_part := ("TENANT: " ++ t_name t)%string in
  let vrf_part := ("VRFs: " ++ vrf_list)%string in
  let vrf_position := (PROVIDER_COLUMN_WIDTH + 1)%Z in
  let spacing := (vrf_position - Z.of_nat (len tenant_part))%Z in
  let spacing := if (spacing <? 1)%Z then 1%Z else spacing in
  [(tenant_part ++ times " " spacing ++ vrf_part ++ newline)%string;
   (times "━" REPORT_WIDTH ++ newline ++ newline)%string].

End Render.

(** ** Reading the report *)

(** The EPGs a written entry shows on either side, and the tenant a written
    entry opens a section for. *)
Definition providers_shown (o : out) : nat :=
  match o with
  | ContractDetails _ providers _ => List.length providers
  | _ => 0
  end.

Definition consumers_shown (o : out) : nat :=
  match o with
  | ContractDetails _ _ consumers => List.length consumers
  | _ => 0
  end.

Definition section_of (o : out) : option tenant :=
  match o with
  | TenantHeader t => Some t
  | _ => None
  end.

Definition is_summary (o : out) : bool :=
  match o with
  | SummaryBanner | SummaryFigures _ _ => true
  | _ => false
  end.

(** The fabric with one more relation: C0 is provided by the [vzAny] of a
    VRF, an object that is neither an EPG nor an external EPG. *)
Definition fabric_any (u : string) : option envelope :=
  if String.eqb u (children_url "uni/tn-T1/brc-C0" "vzRtProv,vzRtCons") then
    response "1" [record "vzRtProv" [("tDn", "uni/tn-T1/ctx-V1/any")]]
  else if String.eqb u (mo_url "uni/tn-T1/ctx-V1/any") then
    response "1" [record "vzAny" [("matchT", "AtleastOne")]]
  else fabric u.

(** ** ACISession: the address of a request *)

(** [apic_url.rstrip('/')] *)
Fixpoint rstrip_slash (s : string) : string :=
  match s with
  | EmptyString => EmptyString
  | String c s' =>
      match rstrip_slash s' with
      | EmptyString => if Ascii.eqb c "/" then EmptyString else String c EmptyString
      | r => String c r
      end
  end.

(** [f"{self.apic_url}/api{url_path}"], [self.apic_url] being what
    [__init__] kept of the address it was given. *)
Definition request_url (apic_url url_path : string) : string :=
  (rstrip_slash apic_url ++ "/api" ++ url_path)%string.

(** ** InteractiveMode: the prompts

    A prompt reads lines until one is acceptable.  Each line typed is
    represented by what [int(input(...).strip())] makes of it: [Some n], or
    [None] when it raises [ValueError]; when the lines run out [input]
    raises [EOFError]. *)

Inductive prompted (A : Type) : Type :=
| Chosen (a : A) (rest : list (option Z))
| EndOfInput
| BadIndex.
Arguments Chosen {A} a rest.
Arguments EndOfInput {A}.
Arguments BadIndex {A}.

Fixpoint _select_tenant (tenants : list tenant) (inputs : list (option Z))
  : prompted tenant :=
  match inputs with
  | [] => EndOfInput
  | None :: rest => _select_tenant tenants rest
  | Some choice :: rest =>
      if ((1 <=? choice) && (choice <=? Z.of_nat (List.length tenants)))%Z then
        match list_index tenants (choice - 1) with
        | Some t => Chosen t rest
        | None => BadIndex
        end
      else _select_tenant tenants rest
  end.

(** The loop of [_select_contract], the sorted list being computed before
    it. *)
Fixpoint select_from_sorted (contracts contracts_sorted : list contract)
  (inputs : list (option Z)) : prompted contract :=
  match inputs with
  | [] => EndOfInput
  | None :: rest => select_from_sorted contracts contracts_sorted rest
  | Some choice :: rest =>
      if ((1 <=? choice) && (choice <=? Z.of_nat (List.length contracts)))%Z then
        match list_index contracts_sorted (choice - 1) with
        | Some c => Chosen c rest
        | None => BadIndex
        end
      else select_from_sorted contracts contracts_sorted rest
  end.

Definition _select_contract (contracts : list contract)
  (inputs : list (option Z)) : prompted contract :=
  let contracts_sorted := sorted contracts c_name in
  select_from_sorted contracts contracts_sorted inputs.

(** A line the prompt for one of [n] entries turns down. *)
Definition turned_down (n : nat) (line : option Z) : Prop :=
  match line with
  | None => True
  | Some choice => ~ (1 <= choice <= Z.of_nat n)%Z
  end.

(** ** InteractiveMode: what is displayed *)



(** * Properties *)

(** ** Programs and their runs *)

Section Interpreters.
Context {A B : Type}.
Variable api : string -> option envelope.

Lemma eval_bind (p : prog A) (f : A -> prog B) :
  eval api (bind p f) =
  match eval api p with Ok a => eval api (f a) | Err e => Err e end.
Proof. induction p as [a|e|u k IH|o k IH]; simpl; auto. Qed.

Lemma trace_bind (p : prog A) (f : A -> prog B) :
  trace api (bind p f) =
  trace api p ++ match eval api p with Ok a => trace api (f a) | Err _ => [] end.
Proof.
  induction p as [a|e|u k IH|o k IH]; simpl; auto; by f_equal.
Qed.

Lemma eval_bind_Ok (p : prog A) (f : A -> prog B) (b : B) :
  eval api (bind p f) = Ok b ->
  exists a, eval api p = Ok a /\ eval api (f a) = Ok b.
Proof.
  rewrite eval_bind. destruct (eval api p) as [a|e]; [eauto | discriminate].
Qed.
End Interpreters.

Lemma run_bind {W A B : Type} (respond : W -> string -> option envelope * W)
  (p : prog A) (f : A -> prog B) (w : W) :
  run respond (bind p f) w =
  match run respond p w with
  | (Ok a, w', t) =>
      let '(x, w'', t') := run respond (f a) w' in (x, w'', t ++ t')
  | (Err e, w', t) => (Err e, w', t)
  end.
Proof.
  revert w. induction p as [a|e|u k IH|o k IH]; intros w; simpl.
  - by destruct (run respond (f a) w) as [[x w'] t].
  - done.
  - destruct (respond w u) as [r w1]. rewrite IH.
    destruct (run respond (k r) w1) as [[[a|e] w2] t]; [|done].
    by destruct (run respond (f a) w2) as [[x w3] t'].
  - rewrite IH.
    destruct (run respond k w) as [[[a|e] w2] t]; [|done].
    by destruct (run respond (f a) w2) as [[x w3] t'].
Qed.

(** A static table is a controller without state. *)
Lemma run_static {A : Type} (api : string -> option envelope) (p : prog A) :
  run (fun (_ : unit) u => (api u, tt)) p tt = (eval api p, tt, trace api p).
Proof.
  induction p as [a|e|u k IH|o k IH]; simpl; auto.
  - by rewrite IH.
  - by rewrite IH.
Qed.

(** Under a quiescent controller a run is the run against the table of the
    answers the controller gives in its initial state, and it leaves the
    controller answering as before. *)
Lemma run_quiescent {W A : Type} (respond : W -> string -> option envelope * W)
  (p : prog A) (w : W) :
  quiescent respond ->
  let api := fun u => fst (respond w u) in
  fst (fst (run respond p w)) = eval api p /\
  snd (run respond p w) = trace api p /\
  forall u, fst (respond (snd (fst (run respond p w))) u) = api u.
Proof.
  intros Hq. simpl. revert w.
  induction p as [a|e|u k IH|o k IH]; intros w; simpl; auto.
  - destruct (respond w u) as [r w1] eqn:E.
    destruct (IH r w1) as (H1 & H2 & H3).
    assert (Hw : forall u', fst (respond w1 u') = fst (respond w u')).
    { intros u'. specialize (Hq w u u'). by rewrite E in Hq. }
    assert (Hapi : forall X (q : prog X),
      eval (fun u' => fst (respond w1 u')) q = eval (fun u' => fst (respond w u')) q
      /\ trace (fun u' => fst (respond w1 u')) q = trace (fun u' => fst (respond w u')) q).
    { intros X q. induction q as [?|?|u' k' IHq|o' k' IHq]; simpl; auto.
      - rewrite Hw. destruct (IHq (fst (respond w u'))) as [-> ->]. done.
      - destruct IHq as [-> ->]. done. }
    destruct (run respond (k r) w1) as [[x w2] t]. simpl in *.
    destruct (Hapi _ (k r)) as [He Ht].
    repeat split.
    + by rewrite H1, He.
    + by rewrite H2, Ht.
    + intros u'. by rewrite H3, Hw.
  - destruct (IH w) as (H1 & H2 & H3).
    destruct (run respond k w) as [[x w2] t]. simpl in *.
    repeat split; auto. by rewrite H2.
Qed.

(** ** Strings *)

Lemma append_cons (a : ascii) (s t : string) :
  (String a s ++ t)%string = String a (s ++ t)%string.
Proof. reflexivity. Qed.

Lemma append_nil (t : string) : ("" ++ t)%string = t.
Proof. reflexivity. Qed.

Lemma prefix_app (sub s : string) :
  String.prefix sub s = true <-> exists post, s = (sub ++ post)%string.
Proof.
  revert s. induction sub as [|a sub IH]; intros s.
  - destruct s; simpl; split; eauto.
  - destruct s as [|b s]; simpl.
    + split; [discriminate | intros [post H]; discriminate].
    + destruct (ascii_dec a b) as [->|Hne].
      * rewrite IH. split; intros [post H]; exists post;
          rewrite append_cons in *; congruence.
      * split; [discriminate | intros [post H]; rewrite append_cons in H; congruence].
Qed.

Lemma str_in_eq (sub s : string) :
  str_in sub s =
  String.prefix sub s ||
  match s with EmptyString => false | String _ s' => str_in sub s' end.
Proof. by destruct s. Qed.

(** [str_in] is the substring test. *)
Lemma str_in_spec (sub s : string) :
  str_in sub s = true <-> exists pre post, s = (pre ++ sub ++ post)%string.
Proof.
  induction s as [|a s IH]; rewrite str_in_eq.
  - rewrite orb_false_r, prefix_app. split.
    + intros [post H]. by exists "", post.
    + intros ([|b pre] & post & H); [eauto | discriminate].
  - rewrite orb_true_iff, prefix_app, IH. split.
    + intros [[post H] | (pre & post & H)].
      * by exists "", post.
      * exists (String a pre), post. rewrite append_cons. by rewrite H.
    + intros ([|b pre] & post & H).
      * left. eauto.
      * right. exists pre, post. rewrite append_cons in H. congruence.
Qed.
Lemma ends_with_eq (s suffix : string) :
  ends_with s suffix =
  String.eqb s suffix ||
  match s with EmptyString => false | String _ s' => ends_with s' suffix end.
Proof. by destruct s. Qed.

Lemma ends_with_app (p s suffix : string) :
  ends_with s suffix = true -> ends_with (p ++ s)%string suffix = true.
Proof.
  intros H. induction p as [|a p IH]; [done|].
  rewrite append_cons, ends_with_eq, IH. apply orb_true_r.
Qed.

Lemma ends_with_refl (s : string) : ends_with s s = true.
Proof. by rewrite ends_with_eq, String.eqb_refl. Qed.

Lemma ends_with_inv (s suffix : string) :
  ends_with s suffix = true -> exists p, s = (p ++ suffix)%string.
Proof.
  induction s as [|a s IH]; rewrite ends_with_eq.
  - rewrite orb_false_r. intros H. exists "". by apply String.eqb_eq in H.
  - rewrite orb_true_iff. intros [H | H].
    + exists "". rewrite append_nil. by apply String.eqb_eq.
    + destruct (IH H) as [p ->]. by exists (String a p).
Qed.

Lemma last_char_app (p s : string) :
  s <> "" -> last_char (p ++ s)%string = last_char s.
Proof.
  intros Hs. induction p as [|a p IH]; [done|].
  rewrite append_cons. simpl. rewrite IH.
  destruct (p ++ s)%string eqn:E; [|done].
  destruct p; [rewrite append_nil in E; congruence | discriminate].
Qed.

Lemma append_nonempty (p s : string) : s <> "" -> (p ++ s)%string <> "".
Proof. destruct p; [done|]. by rewrite append_cons. Qed.

Lemma ends_with_last_char (s suffix : string) :
  suffix <> "" -> last_char s <> last_char suffix -> ends_with s suffix = false.
Proof.
  intros Hs Hne. destruct (ends_with s suffix) eqn:E; [|done].
  destruct (ends_with_inv _ _ E) as [p ->].
  by rewrite last_char_app in Hne.
Qed.

Lemma bd_lookup_children (dn : string) :
  is_bd_lookup (Fetch (children_url dn "fvRsBd")) = true.
Proof.
  unfold is_bd_lookup, children_url.
  do 2 apply ends_with_app.
  apply (ends_with_app ".json"), ends_with_refl.
Qed.

Lemma bd_lookup_subnets (dn : string) :
  is_bd_lookup (Fetch (children_url dn "fvSubnet")) = false.
Proof.
  apply ends_with_last_char; [done|].
  unfold children_url. rewrite !last_char_app; auto using append_nonempty; done.
Qed.

Lemma bd_lookup_mo (dn : string) : is_bd_lookup (Fetch (mo_url dn)) = false.
Proof.
  apply ends_with_last_char; [done|].
  unfold mo_url. rewrite !last_char_app; auto using append_nonempty; done.
Qed.

(** The order of [sorted]. *)
Lemma ltb_false_leb (a b : string) : String.ltb a b = false -> String.leb b a = true.
Proof.
  unfold String.ltb, String.leb. rewrite (String.compare_antisym b a).
  by destruct (String.compare a b).
Qed.

Lemma ltb_leb (a b : string) : String.ltb a b = true -> String.leb a b = true.
Proof. unfold String.ltb, String.leb. by destruct (String.compare a b). Qed.

Lemma leb_trans (a b c : string) :
  String.leb a b = true -> String.leb b c = true -> String.leb a c = true.
Proof.
  unfold String.leb. intros Hab Hbc.
  destruct (String.compare a b) eqn:Eab; [| |done].
  - apply String.compare_eq_iff in Eab. by subst.
  - destruct (String.compare b c) eqn:Ebc; [| |done].
    + apply String.compare_eq_iff in Ebc. subst. by rewrite Eab.
    + apply OrderedTypeEx.String_as_OT.cmp_lt in Eab, Ebc.
      pose proof (OrderedTypeEx.String_as_OT.lt_trans _ _ _ Eab Ebc) as Hac.
      apply OrderedTypeEx.String_as_OT.cmp_lt in Hac.
      unfold OrderedTypeEx.String_as_OT.cmp in Hac. by rewrite Hac.
Qed.

(** ** Loops and guards *)

Section Loops.
Variable api : string -> option envelope.

Lemma eval_for_each_app {A S : Type} (body : S -> A -> prog S)
  (l1 l2 : list A) (s : S) :
  eval api (for_each body (l1 ++ l2) s) =
  match eval api (for_each body l1 s) with
  | Ok s' => eval api (for_each body l2 s')
  | Err e => Err e
  end.
Proof.
  revert s. induction l1 as [|x l1 IH]; intros s; simpl; [done|].
  rewrite !eval_bind. destruct (eval api (body s x)); auto.
Qed.

Lemma trace_for_each_app {A S : Type} (body : S -> A -> prog S)
  (l1 l2 : list A) (s : S) :
  trace api (for_each body (l1 ++ l2) s) =
  trace api (for_each body l1 s) ++
  match eval api (for_each body l1 s) with
  | Ok s' => trace api (for_each body l2 s')
  | Err e => []
  end.
Proof.
  revert s. induction l1 as [|x l1 IH]; intros s; simpl; [done|].
  rewrite !trace_bind, !eval_bind.
  destruct (eval api (body s x)); rewrite ?IH, ?app_nil_r, <- ?app_assoc; auto.
Qed.

Lemma eval_comprehension {A B : Type} (f : A -> prog B) (l : list A)
  (ys : list B) :
  eval api (comprehension f l) = Ok ys ->
  Forall2 (fun x y => eval api (f x) = Ok y) l ys.
Proof.
  revert ys. induction l as [|x l IH]; intros ys; simpl.
  - intros [= <-]. constructor.
  - intros H. apply eval_bind_Ok in H as (y & Hy & H).
    apply eval_bind_Ok in H as (ys' & Hys & H). simpl in H.
    injection H as <-. constructor; auto.
Qed.

(** [if not data: return x] followed by a loop over
    [data.get("imdata", [])] that returns [x] on an empty list is the
    loop over the records. *)
Lemma eval_guard_get {A : Type} (data : option envelope) (x : A)
  (K : list item -> prog A) :
  eval api (K []) = Ok x ->
  eval api (if negb (truthy data) then Ret x
            else let* l := get_imdata_or_empty data in K l) =
  eval api (K (records data)).
Proof.
  intros HK. destruct data as [[[tc|] [l|]]|]; simpl; auto.
Qed.

(** [if not data or not data.get("imdata"): return x], then
    [data["imdata"]]. *)
Lemma eval_guard_imdata {A : Type} (data : option envelope) (x : A)
  (K : list item -> prog A) :
  eval api (if negb (truthy data) then Ret x
            else let* e := no_imdata data in
                 if e then Ret x
                 else let* l := subscript_imdata data in K l) =
  match records data with
  | [] => Ok x
  | l => eval api (K l)
  end.
Proof. by destruct data as [[[tc|] [[|it l]|]]|]. Qed.

Lemma trace_guard_imdata {A : Type} (data : option envelope) (x : A)
  (K : list item -> prog A) :
  trace api (if negb (truthy data) then Ret x
             else let* e := no_imdata data in
                  if e then Ret x
                  else let* l := subscript_imdata data in K l) =
  match records data with
  | [] => []
  | l => trace api (K l)
  end.
Proof. by destruct data as [[[tc|] [[|it l]|]]|]. Qed.

Lemma eval_subscript {V : Type} (d : gmap string V) (k : string) (v : V) :
  eval api (subscript d k) = Ok v <-> d !! k = Some v.
Proof.
  unfold subscript. destruct (d !! k); simpl; split; congruence.
Qed.

Lemma eval_attributes_of (it : item) (cls : string) (a : attrs) :
  eval api (attributes_of it cls) = Ok a <-> attributes it cls = Some a.
Proof.
  unfold attributes_of, attributes, subscript.
  destruct (it !! cls) as [o|]; simpl; [|split; congruence].
  destruct (o !! "attributes"); simpl; split; congruence.
Qed.

Lemma trace_subscript {V : Type} (d : gmap string V) (k : string) :
  trace api (subscript d k) = [].
Proof. unfold subscript. by destruct (d !! k). Qed.

Lemma trace_attributes_of (it : item) (cls : string) :
  trace api (attributes_of it cls) = [].
Proof.
  unfold attributes_of, subscript.
  destruct (it !! cls) as [o|]; simpl; [|done]. by destruct (o !! "attributes").
Qed.
End Loops.

Section Appending.
Variable api : string -> option envelope.
Context {A B : Type}.
Variable body : list B -> A -> prog (list B).
Variable R : A -> B -> Prop.
Hypothesis body_appends : forall acc x r,
  eval api (body acc x) = Ok r -> exists y, r = acc ++ [y] /\ R x y.

(** A loop whose every round appends one element built from the item at
    hand returns one element per item, in the order of the items. *)
Lemma eval_for_each_append (l : list A) (acc r : list B) :
  eval api (for_each body l acc) = Ok r ->
  exists ys, r = acc ++ ys /\ Forall2 R l ys.
Proof.
  revert acc. induction l as [|x l IH]; intros acc; simpl.
  - intros [= <-]. exists []. by rewrite app_nil_r.
  - intros H. apply eval_bind_Ok in H as (acc' & Hx & H).
    apply body_appends in Hx as (y & -> & Hy).
    apply IH in H as (ys & -> & Hys).
    exists (y :: ys). rewrite <- app_assoc. auto.
Qed.
End Appending.

(** ** Resolving an EPG *)

Lemma eval_get_bind {A : Type} (api : string -> option envelope) (u : string)
  (f : option envelope -> prog A) :
  eval api (bind (session_get u) f) = eval api (f (api u)).
Proof. reflexivity. Qed.

Lemma trace_get_bind {A : Type} (api : string -> option envelope) (u : string)
  (f : option envelope -> prog A) :
  trace api (bind (session_get u) f) = Fetch u :: trace api (f (api u)).
Proof. reflexivity. Qed.

Lemma external_subnets_spec (api : string -> option envelope)
  (ext_epg_dn : string) (subnets : list subnet) :
  eval api (_get_external_subnets ext_epg_dn) = Ok subnets ->
  Forall2 external_subnet
    (records (api (children_url ext_epg_dn "l3extSubnet"))) subnets.
Proof.
  unfold _get_external_subnets. rewrite eval_get_bind, eval_guard_imdata.
  destruct (records _) as [|it l].
  - intros [= <-]. constructor.
  - intros H. eapply eval_for_each_append in H as (ys & -> & H); [exact H|].
    clear. intros acc it r H.
    apply eval_bind_Ok in H as (a & Ha & H).
    apply eval_bind_Ok in H as (ip & Hip & H).
    apply eval_attributes_of in Ha. apply eval_subscript in Hip.
    injection H as <-. eexists. split; [done|]. by exists a, ip.
Qed.

Lemma internal_subnets_spec (api : string -> option envelope)
  (epg_dn : string) (subnets : list subnet) :
  eval api (_get_internal_subnets epg_dn) = Ok subnets ->
  match records (api (children_url epg_dn "fvRsBd")) with
  | [] => subnets = []
  | it :: _ =>
      exists bd_dn, attribute it "fvRsBd" "tDn" = Some bd_dn /\
        Forall2 internal_subnet
          (records (api (children_url bd_dn "fvSubnet"))) subnets
  end.
Proof.
  unfold _get_internal_subnets. rewrite eval_get_bind, eval_guard_imdata.
  destruct (records _) as [|it l].
  - by intros [= <-].
  - cbn [first bind]. intros H.
    apply eval_bind_Ok in H as (a & Ha & H).
    apply eval_bind_Ok in H as (bd_dn & Hbd & H).
    apply eval_attributes_of in Ha. apply eval_subscript in Hbd.
    exists bd_dn. split; [unfold attribute; by rewrite Ha|].
    rewrite eval_get_bind, eval_guard_imdata in H.
    destruct (records _) as [|it' l'].
    + injection H as <-. constructor.
    + apply eval_comprehension in H. eapply Forall2_impl; [exact H|].
      clear. intros it s H. simpl in H.
      apply eval_bind_Ok in H as (a & Ha & H).
      apply eval_bind_Ok in H as (ip & Hip & H).
      apply eval_bind_Ok in H as (a' & Ha' & H).
      apply eval_attributes_of in Ha, Ha'. apply eval_subscript in Hip.
      injection H as <-. exists a, ip. repeat split; auto. congruence.
Qed.

(** C6.  When the fetch of the object at the target path yields no data --
    the request failed, or the body has no "imdata" or an empty one --
    [_get_epg_info] returns [None]: it raises nothing and sends no further
    request, whatever the controller's state and whichever variant the path
    selects. *)
Theorem get_epg_info_no_data {W : Type}
  (respond : W -> string -> option envelope * W) (w : W) (epg_dn : string) :
  records (fst (respond w (mo_url epg_dn))) = [] ->
  fst (fst (run respond (_get_epg_info epg_dn) w)) = Ok None /\
  snd (run respond (_get_epg_info epg_dn) w) = [Fetch (mo_url epg_dn)].
Proof.
  intros H. unfold _get_epg_info.
  destruct (str_in "/out-" epg_dn);
    unfold _get_external_epg_info, _get_internal_epg_info; simpl;
    destruct (respond w (mo_url epg_dn)) as [r w1]; simpl in H;
    destruct r as [[[tc|] [[|it l]|]]|]; simpl in *; try done.
Qed.

Lemma trace_comprehension_pure {A B : Type} (api : string -> option envelope)
  (f : A -> prog B) (l : list A) :
  (forall x, trace api (f x) = []) -> trace api (comprehension f l) = [].
Proof.
  intros Hf. induction l as [|x l IH]; simpl; [done|].
  rewrite trace_bind, Hf. destruct (eval api (f x)); simpl; [|done].
  rewrite trace_bind, IH. by destruct (eval api (comprehension f l)).
Qed.

Lemma internal_subnets_trace (api : string -> option envelope)
  (epg_dn : string) (subnets : list subnet) :
  eval api (_get_internal_subnets epg_dn) = Ok subnets ->
  trace api (_get_internal_subnets epg_dn) =
  Fetch (children_url epg_dn "fvRsBd") ::
  match records (api (children_url epg_dn "fvRsBd")) with
  | [] => []
  | it :: _ =>
      match attribute it "fvRsBd" "tDn" with
      | Some bd_dn => [Fetch (children_url bd_dn "fvSubnet")]
      | None => []
      end
  end.
Proof.
  unfold _get_internal_subnets.
  rewrite eval_get_bind, trace_get_bind, eval_guard_imdata, trace_guard_imdata.
  destruct (records _) as [|it l]; [done|].
  cbn [first bind]. intros H.
  apply eval_bind_Ok in H as (a & Ha & H).
  apply eval_bind_Ok in H as (bd_dn & Hbd & H).
  rewrite trace_bind, trace_attributes_of, Ha.
  rewrite trace_bind, trace_subscript, Hbd.
  apply eval_attributes_of in Ha. apply eval_subscript in Hbd.
  unfold attribute. rewrite Ha. simpl. rewrite Hbd.
  rewrite trace_guard_imdata. f_equal. f_equal.
  destruct (records _) as [|it' l']; [done|].
  apply trace_comprehension_pure. intros x.
  rewrite trace_bind, trace_attributes_of.
  destruct (eval api (attributes_of x "fvSubnet")); simpl; [|done].
  rewrite trace_bind, trace_subscript.
  destruct (eval api (subscript _ "ip")); simpl; [|done].
  rewrite trace_bind, trace_attributes_of.
  by destruct (eval api (attributes_of x "fvSubnet")).
Qed.

(** C1.  Every target path that contains "/out-" is resolved by
    [_get_external_epg_info], and whenever [_get_epg_info] returns an EPG
    for it, the EPG's type is "external" and its subnets are, one for one
    and in order, the [l3extSubnet] children of the path, each described by
    the "name" attribute of its record (the empty string when the record
    has none).  The "descr" attribute does not enter. *)
Theorem external_epg_resolution (api : string -> option envelope)
  (epg_dn : string) :
  str_in "/out-" epg_dn = true ->
  _get_epg_info epg_dn = _get_external_epg_info epg_dn /\
  forall e, eval api (_get_epg_info epg_dn) = Ok (Some e) ->
    e_type e = "external" /\
    Forall2 (fun it s =>
               exists a, attributes it "l3extSubnet" = Some a /\
                         s_description s = default "" (a !! "name"))
      (records (api (children_url epg_dn "l3extSubnet"))) (e_subnets e).
Proof.
  intros Hout. unfold _get_epg_info. rewrite Hout. split; [done|].
  intros e. unfold _get_external_epg_info.
  rewrite eval_get_bind, eval_guard_imdata.
  destruct (records _) as [|it l]; [done|].
  cbn [first bind]. intros H.
  apply eval_bind_Ok in H as (epg_data & _ & H).
  apply eval_bind_Ok in H as (subnets & Hs & H).
  apply eval_bind_Ok in H as (name & _ & H).
  injection H as <-. split; [done|]. simpl.
  apply external_subnets_spec in Hs.
  eapply Forall2_impl; [exact Hs|].
  intros it' s (a & ip & Ha & _ & ->). by exists a.
Qed.

(** C2, as amended.  Every target path without "/out-" is resolved by
    [_get_internal_epg_info].  When the fetch of the object yields no data,
    the result is [None] and no Bridge-Domain lookup is sent.  Whenever an
    EPG is returned, its type is "internal"; the run sent exactly one
    Bridge-Domain lookup, right after the fetch of the object; when that
    lookup names a Bridge Domain, the only other request is for the
    [fvSubnet] children of that Bridge Domain, and the subnets are these
    records one for one and in order, each described by its "descr"
    attribute (the empty string when absent); when the lookup yields nothing
    there is no further request and no subnet. *)
Theorem internal_epg_resolution (api : string -> option envelope)
  (epg_dn : string) :
  str_in "/out-" epg_dn = false ->
  _get_epg_info epg_dn = _get_internal_epg_info epg_dn /\
  (records (api (mo_url epg_dn)) = [] ->
   eval api (_get_epg_info epg_dn) = Ok None /\
   bd_lookups (trace api (_get_epg_info epg_dn)) = 0) /\
  forall e, eval api (_get_epg_info epg_dn) = Ok (Some e) ->
    e_type e = "internal" /\
    bd_lookups (trace api (_get_epg_info epg_dn)) = 1 /\
    match records (api (children_url epg_dn "fvRsBd")) with
    | [] =>
        trace api (_get_epg_info epg_dn) =
          [Fetch (mo_url epg_dn); Fetch (children_url epg_dn "fvRsBd")] /\
        e_subnets e = []
    | it :: _ =>
        exists bd_dn,
          attribute it "fvRsBd" "tDn" = Some bd_dn /\
          trace api (_get_epg_info epg_dn) =
            [Fetch (mo_url epg_dn); Fetch (children_url epg_dn "fvRsBd");
             Fetch (children_url bd_dn "fvSubnet")] /\
          Forall2 (fun it' s =>
                     exists a, attributes it' "fvSubnet" = Some a /\
                               s_description s = default "" (a !! "descr"))
            (records (api (children_url bd_dn "fvSubnet"))) (e_subnets e)
    end.
Proof.
  intros Hout. unfold _get_epg_info. rewrite Hout. split; [done|].
  assert (Hmo := bd_lookup_mo epg_dn).
  unfold _get_internal_epg_info.
  rewrite eval_get_bind, trace_get_bind, eval_guard_imdata, trace_guard_imdata.
  split.
  { intros ->. split; [done|]. unfold bd_lookups. cbn [List.filter].
    by rewrite Hmo. }
  intros e.
  destruct (records (api (mo_url epg_dn))) as [|it0 l0]; [done|].
  cbn [first bind]. intros H.
  apply eval_bind_Ok in H as (epg_data & Hd & H).
  apply eval_bind_Ok in H as (subnets & Hs & H).
  apply eval_bind_Ok in H as (name & Hn & H).
  injection H as <-. split; [done|].
  rewrite trace_bind, trace_attributes_of, Hd.
  rewrite trace_bind, Hs, (internal_subnets_trace _ _ _ Hs).
  rewrite trace_bind, trace_subscript, Hn. cbn [trace app e_subnets].
  apply internal_subnets_spec in Hs.
  assert (Hbd := bd_lookup_children epg_dn).
  destruct (records (api (children_url epg_dn "fvRsBd"))) as [|it l].
  - split; [|by rewrite app_nil_r].
    unfold bd_lookups. cbn [List.filter app]. by rewrite Hmo, Hbd.
  - destruct Hs as (bd_dn & Hbd_dn & Hs). rewrite Hbd_dn.
    assert (Hsub := bd_lookup_subnets bd_dn).
    split.
    + unfold bd_lookups. cbn [List.filter app]. by rewrite Hmo, Hbd, Hsub.
    + exists bd_dn. split; [done|]. split; [done|].
      eapply Forall2_impl; [exact Hs|].
      intros it' s (a & ip & Ha & _ & ->). by exists a.
Qed.

(** An EPG that [_get_epg_info] returns carries the type its path selects
    and the subnets the matching subnet query returns. *)
Lemma epg_info_spec (api : string -> option envelope) (epg_dn : string) (e : epg) :
  eval api (_get_epg_info epg_dn) = Ok (Some e) ->
  e_dn e = epg_dn /\
  ((str_in "/out-" epg_dn = true /\ e_type e = "external" /\
    eval api (_get_external_subnets epg_dn) = Ok (e_subnets e)) \/
   (str_in "/out-" epg_dn = false /\ e_type e = "internal" /\
    eval api (_get_internal_subnets epg_dn) = Ok (e_subnets e))).
Proof.
  unfold _get_epg_info.
  destruct (str_in "/out-" epg_dn);
    unfold _get_external_epg_info, _get_internal_epg_info;
    rewrite eval_get_bind, eval_guard_imdata;
    (destruct (records _) as [|it l]; [done|]);
    cbn [first bind]; intros H;
    apply eval_bind_Ok in H as (epg_data & _ & H);
    apply eval_bind_Ok in H as (subnets & Hs & H);
    apply eval_bind_Ok in H as (name & _ & H);
    injection H as <-; simpl; auto.
Qed.

Lemma internal_subnets_type (api : string -> option envelope) (epg_dn : string)
  (subnets : list subnet) :
  eval api (_get_internal_subnets epg_dn) = Ok subnets ->
  Forall (fun s => s_type s = "internal") subnets.
Proof.
  intros H. apply internal_subnets_spec in H.
  destruct (records _) as [|it l]; [subst; constructor|].
  destruct H as (bd_dn & _ & H).
  induction H as [|it' s l1 l2 (a & ip & _ & _ & ->) _ IH]; constructor; auto.
Qed.

(** C3.  In an EPG that [_get_epg_info] returns as external, every subnet
    stems from one [l3extSubnet] record, and when that record has a scope
    the subnet's type is "exp" (exported) if "export-rtctrl" is a substring
    of the scope and "ext" (external) for every other scope, the non-empty
    ones included.  In an EPG returned as internal every subnet has the
    constant type "internal", which is neither of the two tags. *)
Theorem subnet_scope_tag (api : string -> option envelope) (epg_dn : string)
  (e : epg) :
  eval api (_get_epg_info epg_dn) = Ok (Some e) ->
  (e_type e = "external" ->
   Forall2 (fun it s =>
      exists a, attributes it "l3extSubnet" = Some a /\
        forall scope, a !! "scope" = Some scope ->
          ((exists pre post, scope = (pre ++ "export-rtctrl" ++ post)%string) ->
           s_type s = "exp") /\
          (scope <> "" ->
           ~ (exists pre post, scope = (pre ++ "export-rtctrl" ++ post)%string) ->
           s_type s = "ext"))
     (records (api (children_url epg_dn "l3extSubnet"))) (e_subnets e)) /\
  (e_type e = "internal" ->
   Forall (fun s => s_type s = "internal" /\ s_type s <> "exp" /\ s_type s <> "ext")
     (e_subnets e)).
Proof.
  intros H. apply epg_info_spec in H as (_ & [(_ & Ht & H) | (_ & Ht & H)]);
    rewrite Ht; (split; [|]); intros Ht'; try discriminate.
  - apply external_subnets_spec in H.
    eapply Forall2_impl; [exact H|].
    intros it s (a & ip & Ha & _ & ->). exists a. split; [done|].
    intros scope Hscope. unfold get_default. rewrite Hscope. simpl.
    rewrite <- str_in_spec.
    destruct (str_in "export-rtctrl" scope); split; intros; congruence.
  - apply internal_subnets_type in H.
    eapply Forall_impl; [exact H|]. intros s ->. done.
Qed.

(** C10.  In an EPG that [_get_epg_info] returns for a path with "/out-",
    every subnet stems from one [l3extSubnet] record; a record without
    scope or with the empty scope gives the type "ext" (external), and the
    type is "exp" (exported) exactly when the record has a scope of which
    "export-rtctrl" is a substring; there is no third tag. *)
Theorem subnet_scope_default (api : string -> option envelope)
  (epg_dn : string) (e : epg) :
  str_in "/out-" epg_dn = true ->
  eval api (_get_epg_info epg_dn) = Ok (Some e) ->
  Forall2 (fun it s =>
     exists a, attributes it "l3extSubnet" = Some a /\
       (a !! "scope" = None \/ a !! "scope" = Some "" -> s_type s = "ext") /\
       (s_type s = "exp" <->
        exists scope pre post,
          a !! "scope" = Some scope /\
          scope = (pre ++ "export-rtctrl" ++ post)%string) /\
       (s_type s = "exp" \/ s_type s = "ext"))
    (records (api (children_url epg_dn "l3extSubnet"))) (e_subnets e).
Proof.
  intros Hout H.
  apply epg_info_spec in H as (_ & [(_ & _ & H) | (Hout' & _)]); [|congruence].
  apply external_subnets_spec in H.
  eapply Forall2_impl; [exact H|].
  intros it s (a & ip & Ha & _ & ->). exists a. split; [done|].
  unfold get_default. simpl. split; [|split; [split|]].
  - by intros [-> | ->].
  - destruct (str_in "export-rtctrl" (default "" (a !! "scope"))) eqn:E;
      [|discriminate].
    intros _. apply str_in_spec in E as (pre & post & E).
    destruct (a !! "scope") as [scope|] eqn:Es; simpl in E.
    + by exists scope, pre, post.
    + destruct pre; discriminate.
  - intros (scope & pre & post & -> & E). simpl.
    assert (str_in "export-rtctrl" scope = true) as ->; [|done].
    apply str_in_spec. eauto.
  - destruct (str_in "export-rtctrl" _); auto.
Qed.

(** ** Sorting *)

Section Sorting.
Context {A : Type}.
Variable key : A -> string.

Lemma insert_sorted_perm (x : A) (l : list A) :
  insert_sorted key x l ≡ₚ x :: l.
Proof.
  induction l as [|y l IH]; simpl; [done|].
  destruct (String.ltb (key y) (key x)); [|done].
  rewrite IH. apply Permutation_swap.
Qed.

Lemma sorted_perm (l : list A) : sorted l key ≡ₚ l.
Proof.
  unfold sorted. induction l as [|x l IH]; simpl; [done|].
  by rewrite insert_sorted_perm, IH.
Qed.

Lemma elem_of_sorted (x : A) (l : list A) : x ∈ sorted l key <-> x ∈ l.
Proof. by rewrite sorted_perm. Qed.

Lemma insert_sorted_ascending (x : A) (l : list A) :
  ascending key l -> ascending key (insert_sorted key x l).
Proof.
  unfold ascending. induction 1 as [|y l Hl IH Hy]; simpl.
  - repeat constructor.
  - destruct (String.ltb (key y) (key x)) eqn:E.
    + constructor; [done|].
      rewrite insert_sorted_perm. constructor; [by apply ltb_leb | done].
    + apply ltb_false_leb in E. constructor; [by constructor|].
      constructor; [done|].
      eapply Forall_impl; [exact Hy|]. intros z Hz. simpl in Hz.
      eapply leb_trans; eauto.
Qed.

Lemma sorted_ascending (l : list A) : ascending key (sorted l key).
Proof.
  unfold sorted. induction l as [|x l IH]; simpl; [constructor|].
  by apply insert_sorted_ascending.
Qed.
End Sorting.

(** ** Listing the tenants *)

Section Extending.
Variable api : string -> option envelope.
Context {A B : Type}.
Variable body : list B -> A -> prog (list B).
Variable R : A -> list B -> Prop.
Hypothesis body_extends : forall acc x r,
  eval api (body acc x) = Ok r -> exists ys, r = acc ++ ys /\ R x ys.

(** A loop whose every round appends what it makes of the item at hand
    returns the contributions of the items, in the order of the items. *)
Lemma eval_for_each_extend (l : list A) (acc r : list B) :
  eval api (for_each body l acc) = Ok r ->
  exists yss, r = acc ++ mjoin yss /\ Forall2 R l yss.
Proof.
  revert acc. induction l as [|x l IH]; intros acc; simpl.
  - intros [= <-]. exists []. by rewrite app_nil_r.
  - intros H. apply eval_bind_Ok in H as (acc' & Hx & H).
    apply body_extends in Hx as (ys & -> & Hy).
    apply IH in H as (yss & -> & Hys).
    exists (ys :: yss). simpl. rewrite <- app_assoc. auto.
Qed.
End Extending.

Lemma tenant_vrfs_none (api : string -> option envelope) (tenant_dn : string)
  (vrfs : list vrf) :
  eval api (_get_tenant_vrfs tenant_dn) = Ok vrfs ->
  records (api (children_url tenant_dn "fvCtx")) = [] -> vrfs = [].
Proof.
  unfold _get_tenant_vrfs. rewrite eval_get_bind, eval_guard_get by done.
  intros H Hr. rewrite Hr in H. simpl in H. congruence.
Qed.

(** What the loop of [get_tenants] makes of one [fvTenant] record. *)
Lemma tenant_entries (api : string -> option envelope) (l : list item)
  (tenants : list tenant) :
  eval api (for_each (fun tenants it =>
      let* a := attributes_of it "fvTenant" in
      let* tenant_name := subscript a "name" in
      if bool_decide (tenant_name ∉ EXCLUDED_TENANTS) then
        let* a' := attributes_of it "fvTenant" in
        let* tenant_dn := subscript a' "dn" in
        let* vrfs := _get_tenant_vrfs tenant_dn in
        Ret (tenants ++ [Tenant tenant_name tenant_dn vrfs])
      else Ret tenants) l []) = Ok tenants ->
  exists yss, tenants = mjoin yss /\
    Forall2 (fun it ys =>
      exists a name, attributes it "fvTenant" = Some a /\ a !! "name" = Some name /\
        if bool_decide (name ∉ EXCLUDED_TENANTS)
        then exists dn vrfs, a !! "dn" = Some dn /\
               eval api (_get_tenant_vrfs dn) = Ok vrfs /\
               ys = [Tenant name dn vrfs]
        else ys = []) l yss.
Proof.
  intros H. eapply eval_for_each_extend in H as (yss & -> & H); [eauto|].
  clear. intros acc it r H.
  apply eval_bind_Ok in H as (a & Ha & H).
  apply eval_bind_Ok in H as (name & Hn & H).
  apply eval_attributes_of in Ha. apply eval_subscript in Hn.
  destruct (bool_decide (name ∉ EXCLUDED_TENANTS)) eqn:E.
  - apply eval_bind_Ok in H as (a' & Ha' & H).
    apply eval_bind_Ok in H as (dn & Hdn & H).
    apply eval_bind_Ok in H as (vrfs & Hv & H).
    apply eval_attributes_of in Ha'. apply eval_subscript in Hdn.
    injection H as <-. eexists. split; [done|].
    exists a, name. rewrite E. repeat split; auto.
    exists dn, vrfs. repeat split; auto. congruence.
  - injection H as <-. exists []. rewrite app_nil_r. split; [done|].
    exists a, name. by rewrite E.
Qed.

(** C5.  Whatever the controller answers to the tenant-class query, the
    list [get_tenants] returns holds no tenant whose name is in
    [EXCLUDED_TENANTS], is in ascending order of the names, and holds, with
    an empty VRF list, every tenant of the answer that is not excluded and
    whose VRF query yields no record (the request failed, or the body has no
    "imdata" or an empty one). *)
Theorem get_tenants_listing (api : string -> option envelope)
  (tenants : list tenant) :
  eval api get_tenants = Ok tenants ->
  Forall (fun t => t_name t ∉ EXCLUDED_TENANTS) tenants /\
  ascending t_name tenants /\
  forall it a name dn,
    it ∈ records (api "/node/class/fvTenant.json") ->
    attributes it "fvTenant" = Some a ->
    a !! "name" = Some name -> a !! "dn" = Some dn ->
    name ∉ EXCLUDED_TENANTS ->
    records (api (children_url dn "fvCtx")) = [] ->
    Tenant name dn [] ∈ tenants.
Proof.
  unfold get_tenants. rewrite eval_get_bind, eval_guard_get by done.
  intros H. apply eval_bind_Ok in H as (ts & Hts & H). injection H as <-.
  apply tenant_entries in Hts as (yss & -> & Hyss).
  split; [|split].
  - apply Forall_forall. intros t Ht. apply elem_of_sorted in Ht.
    apply list_elem_of_join in Ht as (ys & Ht & Hys).
    apply list_elem_of_lookup in Hys as [i Hi].
    destruct (Forall2_lookup_r _ _ _ i ys Hyss Hi)
      as (it & _ & a & name & _ & _ & Hcase).
    destruct (bool_decide (name ∉ EXCLUDED_TENANTS)) eqn:E.
    + destruct Hcase as (dn & vrfs & _ & _ & ->).
      apply list_elem_of_singleton in Ht as ->. simpl.
      by apply bool_decide_eq_true in E.
    + subst ys. by apply elem_of_nil in Ht.
  - apply sorted_ascending.
  - intros it a name dn Hit Ha Hn Hdn Hex Hv.
    apply elem_of_sorted.
    apply list_elem_of_lookup in Hit as [i Hi].
    destruct (Forall2_lookup_l _ _ _ i it Hyss Hi)
      as (ys & Hys & a' & name' & Ha' & Hn' & Hcase).
    assert (a' = a) as -> by congruence.
    assert (name' = name) as -> by congruence.
    rewrite bool_decide_eq_true_2 in Hcase by done.
    destruct Hcase as (dn' & vrfs & Hdn' & Hvrfs & ->).
    assert (dn' = dn) as -> by congruence.
    apply tenant_vrfs_none in Hvrfs as ->; [|done].
    apply list_elem_of_join. exists [Tenant name dn []].
    split; [apply list_elem_of_singleton; done|].
    apply list_elem_of_lookup. eauto.
Qed.

Lemma eval_ext {A : Type} (api api' : string -> option envelope) (p : prog A) :
  (forall u, api u = api' u) -> eval api p = eval api' p.
Proof.
  intros H. induction p as [a|e|u k IH|o k IH]; simpl; auto.
  rewrite H. apply IH.
Qed.

(** C9.  Against a controller whose answers are not altered by the requests
    it serves, a second run of [get_tenants], started in the state the
    first run left behind, returns what the first run returned: the same
    list in the same order (or the same exception). *)
Theorem get_tenants_idempotent {W : Type}
  (respond : W -> string -> option envelope * W) (w : W) :
  quiescent respond ->
  fst (fst (run respond get_tenants (snd (fst (run respond get_tenants w))))) =
  fst (fst (run respond get_tenants w)).
Proof.
  intros Hq.
  destruct (run_quiescent respond get_tenants w Hq) as (H1 & _ & H3).
  destruct (run_quiescent respond get_tenants
              (snd (fst (run respond get_tenants w))) Hq) as (H1' & _ & _).
  rewrite H1, H1'. by apply eval_ext.
Qed.

(** ** Relationships of a contract *)

Lemma epg_info_no_records (api : string -> option envelope) (epg_dn : string) :
  records (api (mo_url epg_dn)) = [] -> eval api (_get_epg_info epg_dn) = Ok None.
Proof.
  intros H. unfold _get_epg_info.
  destruct (str_in "/out-" epg_dn);
    unfold _get_external_epg_info, _get_internal_epg_info;
    by rewrite eval_get_bind, eval_guard_imdata, H.
Qed.

Lemma append_if_resolved_app (l : list epg) (r : option epg) :
  append_if_resolved l r = l ++ option_list r.
Proof. destruct r; simpl; [done | by rewrite app_nil_r]. Qed.

Lemma omap_cons_option_list {A B : Type} (f : A -> option B) (x : A) (l : list A) :
  omap f (x :: l) = option_list (f x) ++ omap f l.
Proof. simpl. by destruct (f x). Qed.

(** What one round of the loop adds to the two lists. *)
Lemma resolve_relation_spec (api : string -> option envelope)
  (providers consumers : list epg) (it : item) (acc : list epg * list epg) :
  eval api (resolve_relation (providers, consumers) it) = Ok acc ->
  acc = (providers ++ option_list (provider_of api it),
         consumers ++ option_list (consumer_of api it)).
Proof.
  unfold resolve_relation, provider_of, consumer_of, attribute.
  destruct (bool_decide (is_Some (it !! "vzRtProv")));
    [|destruct (bool_decide (is_Some (it !! "vzRtCons")))].
  - intros H. apply eval_bind_Ok in H as (a & Ha & H).
    apply eval_bind_Ok in H as (tdn & Ht & H).
    apply eval_bind_Ok in H as (r & Hr & H).
    apply eval_attributes_of in Ha. apply eval_subscript in Ht.
    injection H as <-. rewrite Ha. simpl. rewrite Ht. simpl.
    unfold resolved. rewrite Hr, append_if_resolved_app. by rewrite app_nil_r.
  - intros H. apply eval_bind_Ok in H as (a & Ha & H).
    apply eval_bind_Ok in H as (tdn & Ht & H).
    apply eval_bind_Ok in H as (r & Hr & H).
    apply eval_attributes_of in Ha. apply eval_subscript in Ht.
    injection H as <-. rewrite Ha. simpl. rewrite Ht. simpl.
    unfold resolved. rewrite Hr, append_if_resolved_app. by rewrite app_nil_r.
  - intros [= <-]. by rewrite !app_nil_r.
Qed.

Lemma relations_loop (api : string -> option envelope) (l : list item)
  (p0 c0 ps cs : list epg) :
  eval api (for_each resolve_relation l (p0, c0)) = Ok (ps, cs) ->
  ps = p0 ++ omap (provider_of api) l /\ cs = c0 ++ omap (consumer_of api) l.
Proof.
  revert p0 c0. induction l as [|it l IH]; intros p0 c0.
  - simpl. intros [= <- <-]. by rewrite !app_nil_r.
  - cbn [for_each]. intros H. apply eval_bind_Ok in H as (acc & Hit & H).
    apply resolve_relation_spec in Hit as ->.
    apply IH in H as [-> ->].
    by rewrite !omap_cons_option_list, !app_assoc.
Qed.

(** A relation whose target object cannot be fetched leaves the loop state
    as it found it. *)
Lemma resolve_relation_no_data (api : string -> option envelope)
  (acc : list epg * list epg) (it : item) (target_dn : string) :
  attribute it "vzRtProv" "tDn" = Some target_dn \/
  (it !! "vzRtProv" = None /\ attribute it "vzRtCons" "tDn" = Some target_dn) ->
  records (api (mo_url target_dn)) = [] ->
  eval api (resolve_relation acc it) = Ok acc.
Proof.
  intros Hrel Hno. destruct acc as [providers consumers].
  pose proof (epg_info_no_records api target_dn Hno) as Hnone.
  unfold resolve_relation, attribute, attributes in *.
  destruct Hrel as [H | [Hp H]].
  - destruct (it !! "vzRtProv") as [o|] eqn:Eo; [|done]. simpl in H.
    destruct (o !! "attributes") as [a|] eqn:Ea; [|done]. simpl in H.
    rewrite bool_decide_eq_true_2 by eauto.
    unfold attributes_of, subscript. rewrite Eo. cbn [bind]. rewrite Ea.
    cbn [bind]. rewrite H. cbn [bind]. by rewrite eval_bind, Hnone.
  - rewrite Hp. rewrite bool_decide_eq_false_2 by (by intros [? ?]).
    destruct (it !! "vzRtCons") as [o|] eqn:Eo; [|done]. simpl in H.
    destruct (o !! "attributes") as [a|] eqn:Ea; [|done]. simpl in H.
    rewrite bool_decide_eq_true_2 by eauto.
    unfold attributes_of, subscript. rewrite Eo. cbn [bind]. rewrite Ea.
    cbn [bind]. rewrite H. cbn [bind]. by rewrite eval_bind, Hnone.
Qed.

(** C4.  When [get_contract_relationships] returns, the provider list holds,
    in the order of the API response and without re-sorting, the EPGs that
    the provider relations of the response resolved to, and the consumer
    list likewise those of the consumer relations: nothing but resolved
    EPGs.  A relation whose target fetch yields no data contributes to
    neither list, and the call returns what the loop returns on the
    response without that one record. *)
Theorem relationships_drop_unresolved (api : string -> option envelope)
  (contract_dn : string) :
  let l := records (api (children_url contract_dn "vzRtProv,vzRtCons")) in
  (forall providers consumers,
     eval api (get_contract_relationships contract_dn) =
       Ok (providers, consumers) ->
     providers = omap (provider_of api) l /\
     consumers = omap (consumer_of api) l) /\
  (forall l1 it l2 target_dn,
     l = l1 ++ it :: l2 ->
     attribute it "vzRtProv" "tDn" = Some target_dn \/
     (it !! "vzRtProv" = None /\ attribute it "vzRtCons" "tDn" = Some target_dn) ->
     records (api (mo_url target_dn)) = [] ->
     provider_of api it = None /\ consumer_of api it = None /\
     eval api (get_contract_relationships contract_dn) =
       eval api (for_each resolve_relation (l1 ++ l2) ([], []))).
Proof.
  unfold get_contract_relationships.
  rewrite eval_get_bind, eval_guard_get by done.
  simpl. split.
  - intros providers consumers H. by apply relations_loop in H as [-> ->].
  - intros l1 it l2 target_dn Hl Hrel Hno. rewrite Hl.
    pose proof (epg_info_no_records api target_dn Hno) as Hnone.
    split; [|split].
    + unfold provider_of. destruct Hrel as [-> | [-> _]].
      * case_bool_decide; [|done]. simpl. unfold resolved. by rewrite Hnone.
      * rewrite bool_decide_eq_false_2; [done | by intros [? ?]].
    + unfold consumer_of. destruct Hrel as [Hp | [-> ->]].
      * rewrite bool_decide_eq_true_2; [done|].
        unfold attribute, attributes in Hp.
        destruct (it !! "vzRtProv"); [eauto | done].
      * rewrite bool_decide_eq_false_2 by (by intros [? ?]).
        case_bool_decide; [|done]. simpl. unfold resolved. by rewrite Hnone.
    + rewrite !eval_for_each_app.
      destruct (eval api (for_each resolve_relation l1 ([], []))) as [acc|]; [|done].
      cbn [for_each]. rewrite eval_bind.
      by rewrite (resolve_relation_no_data api acc it target_dn Hrel Hno).
Qed.

(** ** The analyser never writes *)

Lemma ro_bind {A B : Type} (p : prog A) (f : A -> prog B) :
  reads_only p -> (forall a, reads_only (f a)) -> reads_only (bind p f).
Proof. induction 1; simpl; intros Hf; auto; constructor; auto. Qed.

Lemma ro_for_each {A S : Type} (body : S -> A -> prog S) (l : list A) (s : S) :
  (forall s x, reads_only (body s x)) -> reads_only (for_each body l s).
Proof.
  intros Hb. revert s. induction l as [|x l IH]; intros s; simpl.
  - constructor.
  - apply ro_bind; auto.
Qed.

Lemma ro_comprehension {A B : Type} (f : A -> prog B) (l : list A) :
  (forall x, reads_only (f x)) -> reads_only (comprehension f l).
Proof.
  intros Hf. induction l as [|x l IH]; simpl; [constructor|].
  apply ro_bind; [done|]. intros y. apply ro_bind; [done|]. constructor.
Qed.

Lemma ro_comprehension_if {A : Type} (cond : A -> prog bool) (l : list A) :
  (forall x, reads_only (cond x)) -> reads_only (comprehension_if cond l).
Proof.
  intros Hf. induction l as [|x l IH]; simpl; [constructor|].
  apply ro_bind; [done|]. intros y. apply ro_bind; [done|]. constructor.
Qed.

Lemma ro_subscript {V : Type} (d : gmap string V) (k : string) :
  reads_only (subscript d k).
Proof. unfold subscript. destruct (d !! k); constructor. Qed.

Lemma ro_attributes_of (it : item) (cls : string) :
  reads_only (attributes_of it cls).
Proof. apply ro_bind; auto using @ro_subscript. Qed.

Lemma ro_first {A : Type} (l : list A) : reads_only (first l).
Proof. destruct l; constructor. Qed.

Lemma ro_no_imdata (data : option envelope) : reads_only (no_imdata data).
Proof. destruct data; constructor. Qed.

Lemma ro_subscript_imdata (data : option envelope) :
  reads_only (subscript_imdata data).
Proof. destruct data as [[tc [l|]]|]; constructor. Qed.

Lemma ro_get_imdata_or_empty (data : option envelope) :
  reads_only (get_imdata_or_empty data).
Proof. destruct data; constructor. Qed.

Ltac ro_step :=
  first
    [ apply ro_ret | apply ro_raise | apply ro_subscript
    | apply ro_attributes_of | apply ro_first | apply ro_no_imdata
    | apply ro_subscript_imdata | apply ro_get_imdata_or_empty
    | solve [auto]
    | apply ro_get; intros ?
    | apply ro_bind; [|intros ?]
    | apply ro_for_each; intros ? ?; cbv beta
    | apply ro_comprehension; intros ?; cbv beta
    | apply ro_comprehension_if; intros ?; cbv beta
    | match goal with
      | |- reads_only (if ?b then _ else _) => destruct b
      | |- reads_only (match ?x with _ => _ end) => destruct x
      end ].

Ltac ro := unfold session_get; repeat ro_step.

Lemma ro_get_tenant_vrfs (tenant_dn : string) :
  reads_only (_get_tenant_vrfs tenant_dn).
Proof. unfold _get_tenant_vrfs. ro. Qed.

Lemma ro_get_tenants : reads_only get_tenants.
Proof. unfold get_tenants. pose proof ro_get_tenant_vrfs. ro. Qed.

Lemma ro_get_contracts (tenant_dn : string) :
  reads_only (get_contracts tenant_dn).
Proof. unfold get_contracts. ro. Qed.

Lemma ro_get_epg_info (epg_dn : string) : reads_only (_get_epg_info epg_dn).
Proof.
  unfold _get_epg_info, _get_external_epg_info, _get_internal_epg_info,
    _get_external_subnets, _get_internal_subnets. ro.
Qed.

Lemma ro_get_contract_relationships (contract_dn : string) :
  reads_only (get_contract_relationships contract_dn).
Proof.
  unfold get_contract_relationships, resolve_relation.
  pose proof ro_get_epg_info. ro.
Qed.

Lemma written_app (t1 t2 : list event) :
  written (t1 ++ t2) = written t1 ++ written t2.
Proof. apply omap_app. Qed.

Lemma written_reads_only {A : Type} (api : string -> option envelope)
  (p : prog A) : reads_only p -> written (trace api p) = [].
Proof. induction 1; simpl; auto. Qed.

(** ** Taking one element out of a sorted list *)

Lemma leb_ltb_false (a b : string) : String.leb a b = true -> String.ltb b a = false.
Proof.
  unfold String.ltb, String.leb. rewrite (String.compare_antisym a b).
  by destruct (String.compare b a).
Qed.

Section Removing.
Context {A : Type}.
Variable key : A -> string.

Lemma insert_sorted_split (x : A) (l : list A) :
  exists l1 l2, insert_sorted key x l = l1 ++ x :: l2 /\ l = l1 ++ l2.
Proof.
  induction l as [|y l (l1 & l2 & IH1 & IH2)]; simpl.
  - by exists [], [].
  - destruct (String.ltb (key y) (key x)).
    + exists (y :: l1), l2. simpl. by rewrite IH1, IH2.
    + by exists [], (y :: l).
Qed.

Lemma insert_sorted_head (x : A) (l : list A) :
  Forall (fun y => String.leb (key x) (key y) = true) l ->
  insert_sorted key x l = x :: l.
Proof.
  destruct 1 as [|y l Hy _]; simpl; [done|].
  by rewrite (leb_ltb_false _ _ Hy).
Qed.

Lemma insert_sorted_remove (x c : A) (s1 s2 : list A) :
  ascending key (s1 ++ c :: s2) ->
  exists s1' s2',
    insert_sorted key x (s1 ++ c :: s2) = s1' ++ c :: s2' /\
    insert_sorted key x (s1 ++ s2) = s1' ++ s2'.
Proof.
  unfold ascending. induction s1 as [|y s1 IH]; simpl; intros Hs.
  - apply StronglySorted_inv in Hs as [Hs Hc].
    destruct (String.ltb (key c) (key x)) eqn:E.
    + by exists [], (insert_sorted key x s2).
    + exists [x], s2. split; [done|]. simpl.
      apply insert_sorted_head. apply ltb_false_leb in E.
      eapply Forall_impl; [exact Hc|]. intros z Hz. simpl in Hz.
      eapply leb_trans; eauto.
  - apply StronglySorted_inv in Hs as [Hs _].
    destruct (String.ltb (key y) (key x)).
    + destruct (IH Hs) as (s1' & s2' & -> & ->). by exists (y :: s1'), s2'.
    + by exists (x :: y :: s1), s2.
Qed.

(** Sorting a list without one of its elements gives the sorted list
    without that element. *)
Lemma sorted_remove (l1 l2 : list A) (c : A) :
  exists s1 s2,
    sorted (l1 ++ c :: l2) key = s1 ++ c :: s2 /\
    sorted (l1 ++ l2) key = s1 ++ s2.
Proof.
  induction l1 as [|x l1 (s1 & s2 & IH1 & IH2)].
  - simpl. unfold sorted at 1. simpl. fold (sorted l2 key).
    destruct (insert_sorted_split c (sorted l2 key)) as (s1 & s2 & H1 & H2).
    by exists s1, s2.
  - assert (Hs : ascending key (s1 ++ c :: s2)).
    { rewrite <- IH1. apply sorted_ascending. }
    destruct (insert_sorted_remove x c s1 s2 Hs) as (s1' & s2' & H1 & H2).
    exists s1', s2'. simpl. unfold sorted in *. simpl.
    by rewrite IH1, IH2.
Qed.
End Removing.

(** ** The batch report *)

Lemma write_contract_eval (api : string -> option envelope) (st st' : stats)
  (c : contract) :
  eval api (write_contract st c) = Ok st' ->
  exists providers consumers,
    eval api (get_contract_relationships (c_dn c)) = Ok (providers, consumers) /\
    st' = Stats (st_contracts st)
                (st_providers st + List.length providers)
                (st_consumers st + List.length consumers).
Proof.
  unfold write_contract. intros H.
  apply eval_bind_Ok in H as ([ps cs] & Hr & H). exists ps, cs. split; [done|].
  destruct ps, cs; simpl in H; injection H as <-; destruct st; simpl;
    f_equal; lia.
Qed.

Lemma write_contract_written (api : string -> option envelope) (st : stats)
  (c : contract) :
  written (trace api (write_contract st c)) = contract_entry api c.
Proof.
  unfold write_contract, contract_entry.
  rewrite trace_bind, written_app.
  rewrite written_reads_only by apply ro_get_contract_relationships.
  destruct (eval api (get_contract_relationships (c_dn c))) as [[ps cs]|]; [|done].
  by destruct (is_empty ps && is_empty cs).
Qed.

Lemma write_contracts_written (api : string -> option envelope)
  (l : list contract) (st st' : stats) :
  eval api (for_each write_contract l st) = Ok st' ->
  written (trace api (for_each write_contract l st)) =
  flat_map (contract_entry api) l.
Proof.
  revert st. induction l as [|c l IH]; intros st; [done|].
  cbn [for_each flat_map]. intros H.
  apply eval_bind_Ok in H as (st1 & Hc & H).
  rewrite trace_bind, written_app, write_contract_written, Hc.
  by rewrite (IH _ H).
Qed.

Lemma write_contract_skip (api : string -> option envelope) (st : stats)
  (c : contract) :
  eval api (get_contract_relationships (c_dn c)) = Ok ([], []) ->
  eval api (write_contract st c) = Ok st /\
  written (trace api (write_contract st c)) = [].
Proof.
  intros H. split.
  - unfold write_contract. by rewrite eval_bind, H.
  - rewrite write_contract_written. unfold contract_entry. by rewrite H.
Qed.

Lemma tenant_section_eval (api : string -> option envelope) (t : tenant)
  (contracts : list contract) (st : stats) :
  eval api (_write_tenant_section t contracts st) =
  eval api (for_each write_contract (sorted contracts c_name) st).
Proof. reflexivity. Qed.

Lemma tenant_section_written (api : string -> option envelope) (t : tenant)
  (contracts : list contract) (st : stats) :
  written (trace api (_write_tenant_section t contracts st)) =
  TenantHeader t ::
    written (trace api (for_each write_contract (sorted contracts c_name) st)).
Proof. reflexivity. Qed.

Lemma write_contracts_entries (api : string -> option envelope)
  (l : list contract) (st : stats) (o : out) :
  o ∈ written (trace api (for_each write_contract l st)) ->
  exists c, c ∈ l /\ o ∈ contract_entry api c.
Proof.
  revert st. induction l as [|c l IH]; intros st.
  - simpl. by intros ?%elem_of_nil.
  - cbn [for_each]. rewrite trace_bind, written_app, write_contract_written.
    intros [Hc | Hl]%elem_of_app.
    + exists c. split; [left | done].
    + destruct (eval api (write_contract st c)) as [st1|]; [|by apply elem_of_nil in Hl].
      destruct (IH _ Hl) as (c' & Hc' & Ho). exists c'. split; [by right | done].
Qed.

Lemma write_contracts_skip (api : string -> option envelope)
  (s1 s2 : list contract) (c : contract) (st : stats) :
  eval api (get_contract_relationships (c_dn c)) = Ok ([], []) ->
  eval api (for_each write_contract (s1 ++ c :: s2) st) =
    eval api (for_each write_contract (s1 ++ s2) st) /\
  written (trace api (for_each write_contract (s1 ++ c :: s2) st)) =
    written (trace api (for_each write_contract (s1 ++ s2) st)).
Proof.
  intros Hc. rewrite !eval_for_each_app, !trace_for_each_app, !written_app.
  destruct (eval api (for_each write_contract s1 st)) as [st1|]; [|done].
  destruct (write_contract_skip api st1 c Hc) as [He Hw].
  cbn [for_each]. by rewrite eval_bind, trace_bind, written_app, He, Hw.
Qed.

Lemma write_contracts_total (api : string -> option envelope)
  (l : list contract) (st st' : stats) :
  eval api (for_each write_contract l st) = Ok st' ->
  st_contracts st' = st_contracts st.
Proof.
  revert st. induction l as [|c l IH]; intros st; simpl.
  - by intros [= <-].
  - intros H. apply eval_bind_Ok in H as (st1 & Hc & H).
    apply write_contract_eval in Hc as (ps & cs & _ & ->).
    by rewrite (IH _ H).
Qed.

(** C7.  In the section [_write_tenant_section] writes for a tenant, every
    contract entry has at least one resolved provider or consumer: a
    contract whose two lists are empty has none.  Taking such a contract
    out of the tenant's contracts changes neither what the section writes
    nor what it returns: the totals are those of the other contracts.  A
    section that completes holds the entries of the tenant's contracts in
    the order of their names and leaves the contract total as it was; the
    tenant round of [generate_complete_report] adds to that total the
    number of contracts fetched for the tenant, written or not. *)
Theorem empty_contract_omitted (api : string -> option envelope) (t : tenant) :
  (forall contracts st c providers consumers,
     ContractDetails c providers consumers ∈
       written (trace api (_write_tenant_section t contracts st)) ->
     eval api (get_contract_relationships (c_dn c)) = Ok (providers, consumers) /\
     (providers <> [] \/ consumers <> [])) /\
  (forall l1 c l2 st,
     eval api (get_contract_relationships (c_dn c)) = Ok ([], []) ->
     eval api (_write_tenant_section t (l1 ++ c :: l2) st) =
       eval api (_write_tenant_section t (l1 ++ l2) st) /\
     written (trace api (_write_tenant_section t (l1 ++ c :: l2) st)) =
       written (trace api (_write_tenant_section t (l1 ++ l2) st))) /\
  (forall contracts st st',
     eval api (_write_tenant_section t contracts st) = Ok st' ->
     written (trace api (_write_tenant_section t contracts st)) =
       TenantHeader t :: flat_map (contract_entry api) (sorted contracts c_name) /\
     st_contracts st' = st_contracts st) /\
  (forall st0 st1,
     eval api (report_tenant st0 t) = Ok st1 ->
     exists cs, eval api (get_contracts (t_dn t)) = Ok cs /\
                st_contracts st1 = st_contracts st0 + List.length cs).
Proof.
  split; [|split; [|split]].
  - intros contracts st c ps cs. rewrite tenant_section_written.
    intros [Hin | Hin]%elem_of_cons; [done|].
    apply write_contracts_entries in Hin as (c' & _ & Hin).
    unfold contract_entry in Hin.
    destruct (eval api (get_contract_relationships (c_dn c')))
      as [[ps' cs']|] eqn:E; [|by apply elem_of_nil in Hin].
    destruct (is_empty ps' && is_empty cs') eqn:Ee; [by apply elem_of_nil in Hin|].
    apply list_elem_of_singleton in Hin. injection Hin as -> -> ->.
    split; [done|].
    destruct ps'; [|by left]. destruct cs'; [done | by right].
  - intros l1 c l2 st Hc.
    rewrite !tenant_section_eval, !tenant_section_written.
    destruct (sorted_remove c_name l1 l2 c) as (s1 & s2 & -> & ->).
    destruct (write_contracts_skip api s1 s2 c st Hc) as [-> ->]. done.
  - intros contracts st st'.
    rewrite tenant_section_eval, tenant_section_written. intros H.
    rewrite (write_contracts_written api _ _ _ H).
    split; [done|]. by eapply write_contracts_total.
  - intros st0 st1 H. unfold report_tenant in H.
    apply eval_bind_Ok in H as (cs & Hcs & H). exists cs. split; [done|].
    destruct cs as [|c cs]; cbn [is_empty] in H.
    + injection H as <-. simpl. lia.
    + rewrite tenant_section_eval in H.
      by apply write_contracts_total in H as ->.
Qed.

(** ** The summary *)

Lemma value_bind {A B : Type} (p : prog A) (f : A -> prog B) :
  is_value p -> (forall a, is_value (f a)) -> is_value (bind p f).
Proof. destruct p; simpl; auto. Qed.

Lemma value_subscript {V : Type} (d : gmap string V) (k : string) :
  is_value (subscript d k).
Proof. unfold subscript. by destruct (d !! k). Qed.

Lemma value_attributes_of (it : item) (cls : string) :
  is_value (attributes_of it cls).
Proof. apply value_bind; auto using @value_subscript. Qed.

Lemma value_comprehension {A B : Type} (f : A -> prog B) (l : list A) :
  (forall x, is_value (f x)) -> is_value (comprehension f l).
Proof.
  intros Hf. induction l as [|x l IH]; simpl; [done|].
  apply value_bind; [done|]. intros y. by apply value_bind.
Qed.

Lemma run_value {W A : Type} (respond : W -> string -> option envelope * W)
  (p : prog A) (w : W) :
  is_value p -> exists r, run respond p w = (r, w, []).
Proof. destruct p; simpl; intros H; by eauto. Qed.

Lemma run_get_contracts {W : Type} (respond : W -> string -> option envelope * W)
  (tenant_dn : string) (w : W) :
  exists r,
    run respond (get_contracts tenant_dn) w =
    (r, snd (respond w (children_url tenant_dn "vzBrCP")),
     [Fetch (children_url tenant_dn "vzBrCP")]).
Proof.
  unfold get_contracts. simpl.
  destruct (respond w (children_url tenant_dn "vzBrCP")) as [data w1]. simpl.
  match goal with |- context [run respond ?p w1] =>
    destruct (run_value respond p w1) as [r ->] end.
  - destruct (negb (truthy data)); [done|].
    apply value_bind; [by destruct data|]. intros l.
    apply value_comprehension. intros it.
    repeat (apply value_bind;
            [auto using value_attributes_of, @value_subscript | intros ?]).
    done.
  - by exists r.
Qed.

Lemma run_tenants_with_contracts {W : Type}
  (respond : W -> string -> option envelope * W) (tenants : list tenant)
  (w w' : W) (n : nat) (t : list event) :
  run respond (tenants_with_contracts tenants) w = (Ok n, w', t) ->
  t = map (fun x => Fetch (contracts_url x)) tenants.
Proof.
  unfold tenants_with_contracts. rewrite run_bind.
  destruct (run respond (comprehension_if _ tenants) w) as [[[l|e] w1] t1] eqn:E;
    [|done].
  simpl. rewrite app_nil_r. intros [= _ _ <-]. clear n w'.
  revert w l w1 t1 E. induction tenants as [|x tenants IH]; intros w l w1 t1.
  - simpl. by intros [= _ _ <-].
  - cbn [comprehension_if]. rewrite !run_bind.
    destruct (run_get_contracts respond (t_dn x) w) as [r ->].
    destruct r as [cs|e]; [|done]. simpl. rewrite run_bind.
    destruct (run respond (comprehension_if _ tenants) _) as [[[l'|e] w2] t2] eqn:E;
      [|done].
    simpl. intros [= _ _ <-]. rewrite app_nil_r. f_equal. by eapply IH.
Qed.

Lemma eval_get_contracts_empty (api : string -> option envelope)
  (t : tenant) (cs : list contract) :
  eval api (get_contracts (t_dn t)) = Ok cs ->
  negb (is_empty cs) = has_contracts api t.
Proof.
  unfold get_contracts, has_contracts, contracts_url.
  rewrite eval_get_bind, eval_guard_get by done.
  intros H. apply eval_comprehension in H.
  by destruct H.
Qed.

Lemma eval_tenants_with_contracts (api : string -> option envelope)
  (tenants : list tenant) (n : nat) :
  eval api (tenants_with_contracts tenants) = Ok n ->
  n = List.length (List.filter (has_contracts api) tenants).
Proof.
  unfold tenants_with_contracts. intros H.
  apply eval_bind_Ok in H as (l & Hl & H). injection H as <-. f_equal.
  revert l Hl. induction tenants as [|x tenants IH]; intros l; simpl.
  - by intros [= <-].
  - intros H. apply eval_bind_Ok in H as (b & Hb & H).
    apply eval_bind_Ok in H as (xs & Hxs & H). injection H as <-.
    apply eval_bind_Ok in Hb as (cs & Hcs & Hb). injection Hb as <-.
    rewrite (eval_get_contracts_empty _ _ _ Hcs), (IH _ Hxs). done.
Qed.

(** C8.  A run of [generate_complete_report] that completes is the run of
    [get_tenants], then the header, then the pass over the tenants, then
    the banner of the summary, then a pass of its own that sends the
    contracts request of every listed tenant once more, starting from the
    state the report pass left the controller in, and last the figures.
    The "tenants analysed" figure is what this second pass returns; against
    a controller whose answers do not change it is the number of listed
    tenants whose contracts request is answered with at least one record,
    whether or not any of these contracts has a provider or a consumer. *)
Theorem tenants_analysed_refetched {W : Type}
  (respond : W -> string -> option envelope * W) (w w' : W) (st : stats)
  (t : list event) :
  run respond generate_complete_report w = (Ok st, w', t) ->
  exists tenants w1 t1 w2 t2 n,
    run respond get_tenants w = (Ok tenants, w1, t1) /\
    run respond (for_each report_tenant tenants (Stats 0 0 0)) w1 =
      (Ok st, w2, t2) /\
    run respond (tenants_with_contracts tenants) w2 =
      (Ok n, w', map (fun x => Fetch (contracts_url x)) tenants) /\
    t = t1 ++ Wrote Header :: t2 ++ Wrote SummaryBanner ::
          map (fun x => Fetch (contracts_url x)) tenants ++
          [Wrote (SummaryFigures n st)] /\
    (quiescent respond ->
     n = List.length
           (List.filter (has_contracts (fun u => fst (respond w u))) tenants)).
Proof.
  unfold generate_complete_report. rewrite run_bind.
  destruct (run respond get_tenants w) as [[[tenants|e] w1] t1] eqn:E1; [|done].
  cbn [_write_header f_write bind run]. rewrite run_bind.
  destruct (run respond (for_each report_tenant tenants (Stats 0 0 0)) w1)
    as [[[st1|e] w2] t2] eqn:E2; [|done].
  unfold _write_summary. cbn [f_write bind run]. rewrite !run_bind.
  destruct (run respond (tenants_with_contracts tenants) w2)
    as [[[n|e] w3] t3] eqn:E3; [|done].
  cbn [f_write bind run]. intros [= -> -> <-].
  pose proof (run_tenants_with_contracts _ _ _ _ _ _ E3) as ->.
  exists tenants, w1, t1, w2, t2, n. repeat split; auto.
  - simpl. by rewrite <- !app_assoc.
  - intros Hq.
    destruct (run_quiescent respond get_tenants w Hq) as (_ & _ & H1).
    destruct (run_quiescent respond (for_each report_tenant tenants (Stats 0 0 0))
                w1 Hq) as (_ & _ & H2).
    destruct (run_quiescent respond (tenants_with_contracts tenants) w2 Hq)
      as (H3 & _ & _).
    rewrite E1 in H1. rewrite E2 in H2. rewrite E3 in H3. simpl in *.
    symmetry in H3.
    rewrite (eval_ext _ (fun u => fst (respond w u))) in H3.
    + by apply eval_tenants_with_contracts.
    + intros u. by rewrite H2, H1.
Qed.


(** * Further properties of the analyser *)

(** ** Listings *)

Lemma trace_value {A : Type} (api : string -> option envelope) (p : prog A) :
  is_value p -> trace api p = [].
Proof. by destruct p. Qed.

Lemma trace_guard_get {A : Type} (api : string -> option envelope)
  (data : option envelope) (x : A) (K : list item -> prog A) :
  trace api (K []) = [] ->
  trace api (if negb (truthy data) then Ret x
             else let* l := get_imdata_or_empty data in K l) =
  trace api (K (records data)).
Proof.
  intros HK. destruct data as [[[tc|] [l|]]|]; simpl; auto.
Qed.

Lemma eval_comprehension_intro {A B : Type} (api : string -> option envelope)
  (f : A -> prog B) (l : list A) (ys : list B) :
  Forall2 (fun x y => eval api (f x) = Ok y) l ys ->
  eval api (comprehension f l) = Ok ys.
Proof.
  induction 1 as [|x y l ys Hx _ IH]; simpl; [done|].
  by rewrite eval_bind, Hx, eval_bind, IH.
Qed.

(** What a listing makes of one record of class [cls]: its "name" and its
    "dn". *)
Lemma eval_name_dn {B : Type} (api : string -> option envelope) (it : item)
  (cls : string) (mk : string -> string -> B) (name dn : string) :
  attribute it cls "name" = Some name -> attribute it cls "dn" = Some dn ->
  eval api (let* a := attributes_of it cls in
            let* name := subscript a "name" in
            let* a' := attributes_of it cls in
            let* dn := subscript a' "dn" in
            Ret (mk name dn)) = Ok (mk name dn).
Proof.
  unfold attribute. intros Hn Hd.
  destruct (attributes it cls) as [a|] eqn:Ha; [|done]. simpl in Hn, Hd.
  apply eval_attributes_of with (api := api) in Ha.
  apply eval_subscript with (api := api) in Hn, Hd.
  by rewrite eval_bind, Ha, eval_bind, Hn, eval_bind, Ha, eval_bind, Hd.
Qed.

Lemma eval_name_dn_inv {B : Type} (api : string -> option envelope) (it : item)
  (cls : string) (mk : string -> string -> B) (b : B) :
  eval api (let* a := attributes_of it cls in
            let* name := subscript a "name" in
            let* a' := attributes_of it cls in
            let* dn := subscript a' "dn" in
            Ret (mk name dn)) = Ok b ->
  exists name dn,
    b = mk name dn /\
    attribute it cls "name" = Some name /\ attribute it cls "dn" = Some dn.
Proof.
  intros H.
  apply eval_bind_Ok in H as (a & Ha & H).
  apply eval_bind_Ok in H as (name & Hn & H).
  apply eval_bind_Ok in H as (a' & Ha' & H).
  apply eval_bind_Ok in H as (dn & Hd & H).
  apply eval_attributes_of in Ha, Ha'. apply eval_subscript in Hn, Hd.
  injection H as <-. exists name, dn. unfold attribute.
  rewrite Ha. simpl. split; [done|]. split; [done|]. congruence.
Qed.

Lemma listing_is_value {B : Type} (data : option envelope) (cls : string)
  (mk : string -> string -> B) :
  is_value (if negb (truthy data) then Ret []
            else let* l := get_imdata_or_empty data in
                 comprehension (fun it =>
                   let* a := attributes_of it cls in
                   let* name := subscript a "name" in
                   let* a' := attributes_of it cls in
                   let* dn := subscript a' "dn" in
                   Ret (mk name dn)) l).
Proof.
  destruct (negb (truthy data)); [done|].
  apply value_bind; [by destruct data|]. intros l.
  apply value_comprehension. intros it.
  repeat (apply value_bind;
          [auto using value_attributes_of, @value_subscript | intros ?]).
  done.
Qed.

Lemma trace_get_contracts (api : string -> option envelope) (tenant_dn : string) :
  trace api (get_contracts tenant_dn) = [Fetch (children_url tenant_dn "vzBrCP")].
Proof.
  unfold get_contracts. rewrite trace_get_bind. f_equal.
  apply trace_value, listing_is_value.
Qed.

Lemma trace_get_tenant_vrfs (api : string -> option envelope) (tenant_dn : string) :
  trace api (_get_tenant_vrfs tenant_dn) = [Fetch (children_url tenant_dn "fvCtx")].
Proof.
  unfold _get_tenant_vrfs. rewrite trace_get_bind. f_equal.
  apply trace_value, listing_is_value.
Qed.

(** X1.  [get_contracts] sends one request, whatever comes back.  It
    returns a list exactly when every record of the answer carries the
    "name" and the "dn" of a [vzBrCP] object, and the list then has one
    contract per record, in the order of the answer; a failed request, an
    empty body and a body without "imdata" give the empty list.  One record
    without these keys and there is no list at all. *)
Theorem get_contracts_listing (api : string -> option envelope)
  (tenant_dn : string) (contracts : list contract) :
  trace api (get_contracts tenant_dn) =
    [Fetch (children_url tenant_dn "vzBrCP")] /\
  (eval api (get_contracts tenant_dn) = Ok contracts <->
   Forall2 (fun it c =>
              attribute it "vzBrCP" "name" = Some (c_name c) /\
              attribute it "vzBrCP" "dn" = Some (c_dn c))
     (records (api (children_url tenant_dn "vzBrCP"))) contracts).
Proof.
  split; [apply trace_get_contracts|].
  unfold get_contracts. rewrite eval_get_bind.
  - rewrite eval_guard_get by done. split.
    + intros H. apply eval_comprehension in H.
      eapply Forall2_impl; [exact H|]. intros it c Hc. simpl in Hc.
      apply (eval_name_dn_inv api it "vzBrCP" Contract) in Hc
        as (name & dn & -> & Hn & Hd). done.
    + intros H. apply eval_comprehension_intro.
      eapply Forall2_impl; [exact H|]. intros it [name dn] [Hn Hd]. simpl in Hn, Hd.
      by apply (eval_name_dn api it "vzBrCP" Contract).
Qed.

(** X2.  [_get_tenant_vrfs] likewise: one request; a list exactly when every
    record carries the "name" and the "dn" of an [fvCtx] object, one VRF per
    record in the order of the answer, and the empty list when the request
    yields no record. *)
Theorem get_tenant_vrfs_listing (api : string -> option envelope)
  (tenant_dn : string) (vrfs : list vrf) :
  trace api (_get_tenant_vrfs tenant_dn) =
    [Fetch (children_url tenant_dn "fvCtx")] /\
  (eval api (_get_tenant_vrfs tenant_dn) = Ok vrfs <->
   Forall2 (fun it v =>
              attribute it "fvCtx" "name" = Some (v_name v) /\
              attribute it "fvCtx" "dn" = Some (v_dn v))
     (records (api (children_url tenant_dn "fvCtx"))) vrfs).
Proof.
  split; [apply trace_get_tenant_vrfs|].
  unfold _get_tenant_vrfs. rewrite eval_get_bind.
  - rewrite eval_guard_get by done. split.
    + intros H. apply eval_comprehension in H.
      eapply Forall2_impl; [exact H|]. intros it c Hc. simpl in Hc.
      apply (eval_name_dn_inv api it "fvCtx" Vrf) in Hc
        as (name & dn & -> & Hn & Hd). done.
    + intros H. apply eval_comprehension_intro.
      eapply Forall2_impl; [exact H|]. intros it [name dn] [Hn Hd]. simpl in Hn, Hd.
      by apply (eval_name_dn api it "fvCtx" Vrf).
Qed.

(** The loop of [get_tenants]: the tenants it keeps, in the order of the
    answer, and the requests it sends for them. *)
Lemma tenants_loop (api : string -> option envelope) (l : list item)
  (acc tenants : list tenant) :
  eval api (for_each (fun tenants it =>
      let* a := attributes_of it "fvTenant" in
      let* tenant_name := subscript a "name" in
      if bool_decide (tenant_name ∉ EXCLUDED_TENANTS) then
        let* a' := attributes_of it "fvTenant" in
        let* tenant_dn := subscript a' "dn" in
        let* vrfs := _get_tenant_vrfs tenant_dn in
        Ret (tenants ++ [Tenant tenant_name tenant_dn vrfs])
      else Ret tenants) l acc) = Ok tenants ->
  exists names kept,
    tenants = acc ++ kept /\
    Forall2 (fun it n => attribute it "fvTenant" "name" = Some n) l names /\
    map t_name kept = List.filter (fun n => bool_decide (n ∉ EXCLUDED_TENANTS)) names /\
    trace api (for_each (fun tenants it =>
      let* a := attributes_of it "fvTenant" in
      let* tenant_name := subscript a "name" in
      if bool_decide (tenant_name ∉ EXCLUDED_TENANTS) then
        let* a' := attributes_of it "fvTenant" in
        let* tenant_dn := subscript a' "dn" in
        let* vrfs := _get_tenant_vrfs tenant_dn in
        Ret (tenants ++ [Tenant tenant_name tenant_dn vrfs])
      else Ret tenants) l acc) =
    map (fun t => Fetch (children_url (t_dn t) "fvCtx")) kept.
Proof.
  revert acc. induction l as [|it l IH]; intros acc.
  - simpl. intros [= <-]. exists [], []. by rewrite app_nil_r.
  - cbn [for_each]. intros H.
    apply eval_bind_Ok in H as (acc' & Hit & H).
    rewrite trace_bind, Hit.
    destruct (IH _ H) as (names & kept & -> & Hn & Hk & ->). clear IH H.
    assert (Hit' := Hit).
    apply eval_bind_Ok in Hit as (a & Ha & Hit).
    apply eval_bind_Ok in Hit as (name & Hname & Hit).
    rewrite trace_bind, trace_attributes_of, Ha.
    rewrite trace_bind, trace_subscript, Hname.
    apply eval_attributes_of in Ha. apply eval_subscript in Hname.
    assert (Hattr : attribute it "fvTenant" "name" = Some name).
    { unfold attribute. by rewrite Ha. }
    destruct (bool_decide (name ∉ EXCLUDED_TENANTS)) eqn:E.
    + apply eval_bind_Ok in Hit as (a' & Ha' & Hit).
      apply eval_bind_Ok in Hit as (dn & Hdn & Hit).
      apply eval_bind_Ok in Hit as (vrfs & Hv & Hit).
      rewrite trace_bind, trace_attributes_of, Ha'.
      rewrite trace_bind, trace_subscript, Hdn.
      rewrite trace_bind, trace_get_tenant_vrfs, Hv.
      injection Hit as <-.
      exists (name :: names), (Tenant name dn vrfs :: kept).
      rewrite <- app_assoc. split; [done|]. split; [by constructor|].
      simpl. rewrite E, Hk. done.
    + injection Hit as <-. exists (name :: names), kept.
      split; [done|]. split; [by constructor|]. simpl. by rewrite E.
Qed.

(** X3.  The list [get_tenants] returns has exactly the tenants of the
    answer whose name is not excluded, each as often as the answer has it:
    a tenant is listed if and only if a record of the answer carries its
    name and its dn, the name is not in [EXCLUDED_TENANTS], and its VRFs
    are what [_get_tenant_vrfs] returns for that dn. *)
Theorem get_tenants_complete (api : string -> option envelope)
  (tenants : list tenant) :
  eval api get_tenants = Ok tenants ->
  (exists names,
     Forall2 (fun it n => attribute it "fvTenant" "name" = Some n)
       (records (api "/node/class/fvTenant.json")) names /\
     map t_name tenants ≡ₚ
       List.filter (fun n => bool_decide (n ∉ EXCLUDED_TENANTS)) names) /\
  (forall t, t ∈ tenants <->
     exists it,
       it ∈ records (api "/node/class/fvTenant.json") /\
       attribute it "fvTenant" "name" = Some (t_name t) /\
       (t_name t ∉ EXCLUDED_TENANTS) /\
       attribute it "fvTenant" "dn" = Some (t_dn t) /\
       eval api (_get_tenant_vrfs (t_dn t)) = Ok (t_vrfs t)).
Proof.
  unfold get_tenants. rewrite eval_get_bind, eval_guard_get by done.
  intros H. apply eval_bind_Ok in H as (ts & Hts & H). injection H as <-.
  split.
  - apply tenants_loop in Hts as (names & kept & -> & Hn & Hk & _).
    exists names. split; [done|]. simpl. by rewrite sorted_perm, Hk.
  - intros t. rewrite elem_of_sorted.
    apply tenant_entries in Hts as (yss & -> & Hyss).
    rewrite list_elem_of_join. split.
    + intros (ys & Ht & Hys).
      apply list_elem_of_lookup in Hys as [i Hi].
      destruct (Forall2_lookup_r _ _ _ i ys Hyss Hi)
        as (it & Hit & a & name & Ha & Hname & Hcase).
      destruct (bool_decide (name ∉ EXCLUDED_TENANTS)) eqn:E;
        [|subst ys; by apply elem_of_nil in Ht].
      destruct Hcase as (dn & vrfs & Hdn & Hv & ->).
      apply list_elem_of_singleton in Ht as ->. simpl.
      exists it. unfold attribute. rewrite Ha. simpl.
      split; [by eapply list_elem_of_lookup_2|].
      repeat split; auto. by apply bool_decide_eq_true in E.
    + intros (it & Hit & Hname & Hex & Hdn & Hv).
      apply list_elem_of_lookup in Hit as [i Hi].
      destruct (Forall2_lookup_l _ _ _ i it Hyss Hi)
        as (ys & Hys & a & name & Ha & Hname' & Hcase).
      unfold attribute in Hname, Hdn. rewrite Ha in Hname, Hdn. simpl in *.
      assert (name = t_name t) as -> by congruence.
      rewrite bool_decide_eq_true_2 in Hcase by done.
      destruct Hcase as (dn & vrfs & Hdn' & Hv' & ->).
      assert (dn = t_dn t) as -> by congruence.
      assert (vrfs = t_vrfs t) as -> by congruence.
      exists [t]. destruct t. simpl. split; [by apply list_elem_of_singleton|].
      by eapply list_elem_of_lookup_2.
Qed.


(** ** Resolution: what it fetches and when it raises *)

Lemma trace_bind_value {A B : Type} (api : string -> option envelope)
  (p : prog A) (f : A -> prog B) :
  is_value p ->
  trace api (bind p f) =
  match eval api p with Ok a => trace api (f a) | Err _ => [] end.
Proof. by destruct p. Qed.

Lemma value_for_each {A S : Type} (body : S -> A -> prog S) (l : list A) (s : S) :
  (forall s x, is_value (body s x)) -> is_value (for_each body l s).
Proof.
  intros Hb. revert s. induction l as [|x l IH]; intros s; simpl; [done|].
  by apply value_bind.
Qed.

Lemma value_first {A : Type} (l : list A) : is_value (first l).
Proof. by destruct l. Qed.

Lemma trace_external_subnets (api : string -> option envelope) (ext_epg_dn : string) :
  trace api (_get_external_subnets ext_epg_dn) =
  [Fetch (children_url ext_epg_dn "l3extSubnet")].
Proof.
  unfold _get_external_subnets. rewrite trace_get_bind, trace_guard_imdata.
  f_equal. destruct (records _) as [|it l]; [done|].
  apply trace_value, value_for_each. intros acc x.
  apply value_bind; [apply value_attributes_of | intros a].
  apply value_bind; [apply value_subscript | done].
Qed.

Lemma trace_internal_subnets_le (api : string -> option envelope) (epg_dn : string) :
  exists rest,
    trace api (_get_internal_subnets epg_dn) =
      Fetch (children_url epg_dn "fvRsBd") :: rest /\
    List.length rest <= 1.
Proof.
  unfold _get_internal_subnets. rewrite trace_get_bind, trace_guard_imdata.
  eexists. split; [reflexivity|].
  destruct (records _) as [|it l]; [simpl; lia|].
  cbn [first bind].
  rewrite trace_bind_value by apply value_attributes_of.
  destruct (eval api (attributes_of it "fvRsBd")) as [a|]; [|simpl; lia].
  rewrite trace_bind_value by apply value_subscript.
  destruct (eval api (subscript a "tDn")) as [bd_dn|]; [|simpl; lia].
  rewrite trace_get_bind, trace_guard_imdata.
  destruct (records _) as [|it' l']; [simpl; lia|].
  rewrite trace_value; [simpl; lia|].
  apply value_comprehension. intros x.
  repeat (apply value_bind;
          [auto using value_attributes_of, @value_subscript | intros ?]).
  done.
Qed.

(** X5.  Resolving a target never takes more than three requests, two when
    the path has "/out-", whatever the controller answers and whether or
    not the resolution ends in an exception; resolving the relations of a
    contract never takes more than one request plus three per record of the
    answer. *)
Theorem resolution_requests_bounded (api : string -> option envelope) :
  (forall epg_dn,
     List.length (trace api (_get_epg_info epg_dn)) <=
     if str_in "/out-" epg_dn then 2 else 3) /\
  (forall contract_dn,
     List.length (trace api (get_contract_relationships contract_dn)) <=
     1 + 3 * List.length
           (records (api (children_url contract_dn "vzRtProv,vzRtCons")))).
Proof.
  assert (Hepg : forall epg_dn,
    List.length (trace api (_get_epg_info epg_dn)) <=
    if str_in "/out-" epg_dn then 2 else 3).
  { intros epg_dn. unfold _get_epg_info.
    destruct (str_in "/out-" epg_dn).
    - unfold _get_external_epg_info. rewrite trace_get_bind, trace_guard_imdata.
      destruct (records _) as [|it l]; [simpl; lia|].
      cbn [first bind].
      rewrite trace_bind_value by apply value_attributes_of.
      destruct (eval api (attributes_of it "l3extInstP")) as [a|]; [|simpl; lia].
      rewrite trace_bind, trace_external_subnets.
      destruct (eval api (_get_external_subnets epg_dn)) as [subnets|]; [|simpl; lia].
      rewrite trace_value; [simpl; lia|].
      apply value_bind; [apply value_subscript | done].
    - unfold _get_internal_epg_info. rewrite trace_get_bind, trace_guard_imdata.
      destruct (records _) as [|it l]; [simpl; lia|].
      cbn [first bind].
      rewrite trace_bind_value by apply value_attributes_of.
      destruct (eval api (attributes_of it "fvAEPg")) as [a|]; [|simpl; lia].
      destruct (trace_internal_subnets_le api epg_dn) as (rest & Ht & Hr).
      rewrite trace_bind, Ht.
      destruct (eval api (_get_internal_subnets epg_dn)) as [subnets|];
        [|simpl; rewrite app_nil_r; lia].
      rewrite trace_value; [simpl; rewrite app_nil_r; lia|].
      apply value_bind; [apply value_subscript | done]. }
  split; [exact Hepg|].
  assert (Hle3 : forall epg_dn, List.length (trace api (_get_epg_info epg_dn)) <= 3).
  { intros epg_dn. specialize (Hepg epg_dn).
    destruct (str_in "/out-" epg_dn); lia. }
  intros contract_dn. unfold get_contract_relationships.
  rewrite trace_get_bind, trace_guard_get by done.
  generalize (records (api (children_url contract_dn "vzRtProv,vzRtCons"))).
  intros l. cbn [List.length]. apply le_n_S.
  generalize (@nil epg, @nil epg).
  induction l as [|it l IH]; intros acc; [simpl; lia|].
  cbn [for_each]. rewrite trace_bind, length_app.
  assert (Hstep : List.length (trace api (resolve_relation acc it)) <= 3).
  { destruct acc as [ps cs]. unfold resolve_relation.
    repeat case_bool_decide;
      try (rewrite trace_bind_value by apply value_attributes_of;
           destruct (eval api (attributes_of it _)) as [a|]; [|simpl; lia];
           rewrite trace_bind_value by apply value_subscript;
           destruct (eval api (subscript a "tDn")) as [tdn|]; [|simpl; lia];
           rewrite trace_bind;
           destruct (eval api (_get_epg_info tdn)); simpl;
           rewrite app_nil_r; apply Hle3).
    simpl; lia. }
  destruct (eval api (resolve_relation acc it)) as [acc'|].
  - specialize (IH acc'). simpl List.length. lia.
  - simpl List.length. lia.
Qed.

(** X6.  When the record an object fetch returns is not of the class the
    path calls for -- [l3extInstP] under "/out-", [fvAEPg] otherwise -- the
    resolution raises [KeyError] for that class, right after the fetch of
    the object and before any subnet is looked up. *)
Theorem epg_info_wrong_class (api : string -> option envelope)
  (epg_dn : string) (it : item) (l : list item) :
  records (api (mo_url epg_dn)) = it :: l ->
  (str_in "/out-" epg_dn = true -> it !! "l3extInstP" = None ->
   eval api (_get_epg_info epg_dn) = Err (KeyError "l3extInstP") /\
   trace api (_get_epg_info epg_dn) = [Fetch (mo_url epg_dn)]) /\
  (str_in "/out-" epg_dn = false -> it !! "fvAEPg" = None ->
   eval api (_get_epg_info epg_dn) = Err (KeyError "fvAEPg") /\
   trace api (_get_epg_info epg_dn) = [Fetch (mo_url epg_dn)]).
Proof.
  intros Hrec. unfold _get_epg_info.
  split; intros -> Hcls;
    unfold _get_external_epg_info, _get_internal_epg_info;
    rewrite eval_get_bind, trace_get_bind, eval_guard_imdata,
      trace_guard_imdata, Hrec;
    cbn [first bind]; unfold attributes_of, subscript; rewrite Hcls; done.
Qed.

(** X7.  The relations of a contract are resolved in a chain: when the
    relations before one resolve and that one raises, the whole call raises
    the same exception and returns neither list. *)
Theorem relationships_abort (api : string -> option envelope)
  (contract_dn : string) (l1 l2 : list item) (it : item)
  (acc : list epg * list epg) (target_dn : string) (e : exn) :
  records (api (children_url contract_dn "vzRtProv,vzRtCons")) = l1 ++ it :: l2 ->
  eval api (for_each resolve_relation l1 ([], [])) = Ok acc ->
  attribute it "vzRtProv" "tDn" = Some target_dn \/
  (it !! "vzRtProv" = None /\ attribute it "vzRtCons" "tDn" = Some target_dn) ->
  eval api (_get_epg_info target_dn) = Err e ->
  eval api (get_contract_relationships contract_dn) = Err e.
Proof.
  intros Hrec Hl1 Hrel He. unfold get_contract_relationships.
  rewrite eval_get_bind, eval_guard_get by done.
  rewrite Hrec, eval_for_each_app, Hl1. cbn [for_each]. rewrite eval_bind.
  assert (eval api (resolve_relation acc it) = Err e) as ->; [|done].
  destruct acc as [ps cs]. unfold resolve_relation, attribute, attributes in *.
  destruct Hrel as [H | [Hp H]].
  - destruct (it !! "vzRtProv") as [o|] eqn:Eo; [|done]. simpl in H.
    destruct (o !! "attributes") as [a|] eqn:Ea; [|done]. simpl in H.
    rewrite bool_decide_eq_true_2 by eauto.
    unfold attributes_of, subscript. rewrite Eo. cbn [bind]. rewrite Ea.
    cbn [bind]. rewrite H. cbn [bind]. by rewrite eval_bind, He.
  - rewrite Hp. rewrite bool_decide_eq_false_2 by (by intros [? ?]).
    destruct (it !! "vzRtCons") as [o|] eqn:Eo; [|done]. simpl in H.
    destruct (o !! "attributes") as [a|] eqn:Ea; [|done]. simpl in H.
    rewrite bool_decide_eq_true_2 by eauto.
    unfold attributes_of, subscript. rewrite Eo. cbn [bind]. rewrite Ea.
    cbn [bind]. rewrite H. cbn [bind]. by rewrite eval_bind, He.
Qed.

(** ** The report as a whole *)

Lemma eval_get_contracts_length (api : string -> option envelope) (t : tenant)
  (cs : list contract) :
  eval api (get_contracts (t_dn t)) = Ok cs ->
  List.length cs = List.length (records (api (contracts_url t))).
Proof.
  unfold get_contracts, contracts_url.
  rewrite eval_get_bind, eval_guard_get by done.
  intros H. apply eval_comprehension in H. symmetry.
  by eapply Forall2_length.
Qed.

Lemma contract_entry_shown (api : string -> option envelope) (st st' : stats)
  (c : contract) :
  eval api (write_contract st c) = Ok st' ->
  st_providers st' =
    st_providers st + sum_list_with providers_shown (contract_entry api c) /\
  st_consumers st' =
    st_consumers st + sum_list_with consumers_shown (contract_entry api c) /\
  omap section_of (contract_entry api c) = [].
Proof.
  intros H. apply write_contract_eval in H as (ps & cs & Hr & ->).
  unfold contract_entry. rewrite Hr.
  destruct ps, cs; simpl; repeat split; lia.
Qed.

Lemma write_contracts_shown (api : string -> option envelope)
  (l : list contract) (st st' : stats) :
  eval api (for_each write_contract l st) = Ok st' ->
  st_providers st' =
    st_providers st +
    sum_list_with providers_shown (flat_map (contract_entry api) l) /\
  st_consumers st' =
    st_consumers st +
    sum_list_with consumers_shown (flat_map (contract_entry api) l) /\
  omap section_of (flat_map (contract_entry api) l) = [].
Proof.
  revert st. induction l as [|c l IH]; intros st.
  - simpl. intros [= <-]. repeat split; lia.
  - cbn [for_each flat_map]. intros H.
    apply eval_bind_Ok in H as (st1 & Hc & H).
    apply contract_entry_shown in Hc as (Hp & Hc & Hs).
    apply IH in H as (Hp' & Hc' & Hs').
    rewrite !sum_list_with_app, omap_app, Hs, Hs'.
    repeat split; lia.
Qed.

(** What the pass over the tenants returns and writes. *)
Lemma report_pass (api : string -> option envelope) (l : list tenant)
  (st st' : stats) :
  eval api (for_each report_tenant l st) = Ok st' ->
  let body := written (trace api (for_each report_tenant l st)) in
  st_contracts st' =
    st_contracts st +
    sum_list_with (fun t => List.length (records (api (contracts_url t)))) l /\
  st_providers st' = st_providers st + sum_list_with providers_shown body /\
  st_consumers st' = st_consumers st + sum_list_with consumers_shown body /\
  omap section_of body = List.filter (has_contracts api) l /\
  List.filter is_summary body = [].
Proof.
  revert st. induction l as [|t l IH]; intros st.
  - simpl. intros [= <-]. repeat split; lia.
  - cbn [for_each]. intros H.
    apply eval_bind_Ok in H as (st1 & Ht & H).
    rewrite trace_bind, written_app, Ht.
    destruct (IH _ H) as (Hn & Hp & Hc & Hs & Hsum). clear IH.
    cbn zeta in *.
    set (rest := written (trace api (for_each report_tenant l st1))) in *.
    rewrite !sum_list_with_app, omap_app, List.filter_app, Hs, Hsum.
    cbn [sum_list_with List.filter].
    unfold report_tenant in Ht |- *.
    rewrite trace_bind, written_app.
    rewrite (written_reads_only api _ (ro_get_contracts (t_dn t))).
    apply eval_bind_Ok in Ht as (cs & Hcs & Ht). rewrite Hcs.
    rewrite <- (eval_get_contracts_empty _ _ _ Hcs).
    rewrite <- (eval_get_contracts_length _ _ _ Hcs).
    destruct (is_empty cs) eqn:Ee.
    + injection Ht as <-. destruct cs; [|done]. simpl in *.
      repeat split; lia.
    + rewrite tenant_section_eval in Ht. rewrite tenant_section_written.
      rewrite (write_contracts_written _ _ _ _ Ht).
      pose proof (write_contracts_total _ _ _ _ Ht) as Hk.
      apply write_contracts_shown in Ht as (Hp1 & Hc1 & Hs1).
      simpl in Hp1, Hc1, Hk. rewrite !app_nil_l.
      change (omap section_of (TenantHeader t :: ?L))
        with (t :: omap section_of L).
      rewrite Hs1.
      cbn [sum_list_with providers_shown consumers_shown List.filter
           is_summary negb app].
      assert (Hnos : List.filter is_summary
                (flat_map (contract_entry api) (sorted cs c_name)) = []).
      { clear. induction (sorted cs c_name) as [|c l IH]; [done|].
        cbn [flat_map]. rewrite List.filter_app, IH, app_nil_r.
        unfold contract_entry.
        destruct (eval api (get_contract_relationships (c_dn c))) as [[ps cs']|];
          [|done].
        by destruct (is_empty ps && is_empty cs'). }
      rewrite Hnos. repeat split; try lia; done.
Qed.

Lemma ro_tenants_with_contracts (tenants : list tenant) :
  reads_only (tenants_with_contracts tenants).
Proof.
  unfold tenants_with_contracts.
  apply ro_bind; [|constructor].
  apply ro_comprehension_if. intros t.
  apply ro_bind; [apply ro_get_contracts | constructor].
Qed.

Lemma report_written (api : string -> option envelope) (st : stats) :
  eval api generate_complete_report = Ok st ->
  exists tenants n,
    eval api get_tenants = Ok tenants /\
    eval api (for_each report_tenant tenants (Stats 0 0 0)) = Ok st /\
    written (trace api generate_complete_report) =
      Header ::
      written (trace api (for_each report_tenant tenants (Stats 0 0 0))) ++
      [SummaryBanner; SummaryFigures n st].
Proof.
  unfold generate_complete_report. intros H.
  apply eval_bind_Ok in H as (tenants & Hts & H).
  apply eval_bind_Ok in H as ([] & _ & H).
  apply eval_bind_Ok in H as (st1 & Hpass & H).
  apply eval_bind_Ok in H as ([] & Hsum & H). injection H as <-.
  unfold _write_summary in Hsum.
  apply eval_bind_Ok in Hsum as ([] & _ & Hsum).
  apply eval_bind_Ok in Hsum as (n & Hn & _).
  exists tenants, n. split; [done|]. split; [done|].
  rewrite trace_bind, written_app, Hts.
  rewrite (written_reads_only api _ ro_get_tenants), app_nil_l.
  rewrite trace_bind, written_app.
  change (eval api _write_header) with (Ok tt).
  change (written (trace api _write_header)) with [Header].
  cbn [app]. f_equal.
  rewrite trace_bind, written_app, Hpass. f_equal.
  rewrite trace_bind, written_app.
  assert (Hs : eval api (_write_summary tenants st1) = Ok tt).
  { unfold _write_summary. rewrite eval_bind.
    change (eval api (f_write SummaryBanner)) with (Ok tt).
    by rewrite eval_bind, Hn. }
  rewrite Hs. cbn [trace written omap]. rewrite app_nil_r.
  unfold _write_summary. rewrite trace_bind, written_app.
  change (eval api (f_write SummaryBanner)) with (Ok tt).
  change (written (trace api (f_write SummaryBanner))) with [SummaryBanner].
  cbn [app]. f_equal.
  rewrite trace_bind, written_app, Hn.
  by rewrite (written_reads_only api _ (ro_tenants_with_contracts tenants)).
Qed.

Lemma ascending_filter {A : Type} (key : A -> string) (f : A -> bool) (l : list A) :
  ascending key l -> ascending key (List.filter f l).
Proof.
  unfold ascending. induction 1 as [|x l Hl IH Hx]; simpl; [constructor|].
  destruct (f x); [|done]. constructor; [done|].
  apply Forall_forall. intros y Hy.
  apply list_elem_of_In, filter_In in Hy as [Hy _].
  rewrite Forall_forall in Hx. apply Hx. by apply list_elem_of_In.
Qed.

(** X8.  In a batch report that completes, the totals of the summary are
    those of the body: the provider total is the number of provider EPGs
    shown in the contract entries, the consumer total the number of consumer
    EPGs shown, and the contract total the number of contract records
    fetched for the listed tenants, shown or not; the figures are the last
    thing written. *)
Theorem report_totals_match_body (api : string -> option envelope) (st : stats) :
  eval api generate_complete_report = Ok st ->
  let body := written (trace api generate_complete_report) in
  st_providers st = sum_list_with providers_shown body /\
  st_consumers st = sum_list_with consumers_shown body /\
  (exists tenants,
     eval api get_tenants = Ok tenants /\
     st_contracts st =
       sum_list_with
         (fun t => List.length (records (api (contracts_url t)))) tenants) /\
  exists n, last body = Some (SummaryFigures n st).
Proof.
  intros H. apply report_written in H as (tenants & n & Hts & Hpass & Hw).
  cbn zeta. rewrite Hw.
  destruct (report_pass api _ _ _ Hpass) as (Hn & Hp & Hc & _ & _).
  cbn zeta in *. simpl in Hn, Hp, Hc.
  cbn [sum_list_with providers_shown consumers_shown].
  rewrite !sum_list_with_app. cbn [sum_list_with providers_shown consumers_shown].
  split; [lia|]. split; [lia|]. split; [by exists tenants|].
  exists n. rewrite app_comm_cons.
  replace [SummaryBanner; SummaryFigures n st]
    with ([SummaryBanner] ++ [SummaryFigures n st]) by done.
  rewrite app_assoc. apply last_snoc.
Qed.

(** X9.  In a batch report that completes, the tenant sections are those
    of the listed tenants whose contracts request is answered with at least
    one record, one section each, in the order of the tenant names; a
    tenant without contracts has no section. *)
Theorem report_sections (api : string -> option envelope) (st : stats) :
  eval api generate_complete_report = Ok st ->
  exists tenants,
    eval api get_tenants = Ok tenants /\
    omap section_of (written (trace api generate_complete_report)) =
      List.filter (has_contracts api) tenants /\
    ascending t_name
      (omap section_of (written (trace api generate_complete_report))).
Proof.
  intros H. apply report_written in H as (tenants & n & Hts & Hpass & Hw).
  exists tenants. split; [done|].
  destruct (report_pass api _ _ _ Hpass) as (_ & _ & _ & Hs & _).
  cbn zeta in Hs.
  assert (Hsec : omap section_of (written (trace api generate_complete_report)) =
                 List.filter (has_contracts api) tenants).
  { rewrite Hw.
    change (omap section_of (Header :: ?L)) with (omap section_of L).
    rewrite omap_app, Hs. cbn. apply app_nil_r. }
  split; [done|]. rewrite Hsec. apply ascending_filter.
  unfold get_tenants in Hts.
  rewrite eval_get_bind, eval_guard_get in Hts by done.
  apply eval_bind_Ok in Hts as (ts & _ & Hts). injection Hts as <-.
  apply sorted_ascending.
Qed.

(** ** One exception ends the report *)

Lemma for_each_fails {A S : Type} (api : string -> option envelope)
  (body : S -> A -> prog S) (l : list A) (x : A) :
  x ∈ l ->
  (forall s, exists e, eval api (body s x) = Err e) ->
  forall s, exists e, eval api (for_each body l s) = Err e.
Proof.
  intros Hx Hfail. induction l as [|y l IH]; intros s.
  - by apply elem_of_nil in Hx.
  - cbn [for_each]. rewrite eval_bind.
    destruct (eval api (body s y)) as [s'|e] eqn:E; [|by eauto].
    apply elem_of_cons in Hx as [-> | Hx].
    + destruct (Hfail s) as [e He]. congruence.
    + by apply IH.
Qed.

Lemma write_contracts_no_summary (api : string -> option envelope)
  (l : list contract) (st : stats) :
  Forall (fun o => is_summary o = false)
    (written (trace api (for_each write_contract l st))).
Proof.
  apply Forall_forall. intros o Ho.
  apply write_contracts_entries in Ho as (c & _ & Ho).
  unfold contract_entry in Ho.
  destruct (eval api (get_contract_relationships (c_dn c))) as [[ps cs]|];
    [|by apply elem_of_nil in Ho].
  destruct (is_empty ps && is_empty cs); [by apply elem_of_nil in Ho|].
  by apply list_elem_of_singleton in Ho as ->.
Qed.

Lemma report_pass_no_summary (api : string -> option envelope)
  (l : list tenant) (st : stats) :
  Forall (fun o => is_summary o = false)
    (written (trace api (for_each report_tenant l st))).
Proof.
  revert st. induction l as [|t l IH]; intros st; [constructor|].
  cbn [for_each]. rewrite trace_bind, written_app. apply Forall_app. split.
  - unfold report_tenant. rewrite trace_bind, written_app.
    rewrite (written_reads_only api _ (ro_get_contracts (t_dn t))), app_nil_l.
    destruct (eval api (get_contracts (t_dn t))) as [cs|]; [|constructor].
    destruct (is_empty cs); [constructor|].
    rewrite tenant_section_written. constructor; [done|].
    apply write_contracts_no_summary.
  - destruct (eval api (report_tenant st t)); [apply IH | constructor].
Qed.

(** X10.  Nothing in the batch report catches an exception: when the
    relations of one contract of one listed tenant cannot be resolved
    without an exception, [generate_complete_report] itself ends in an
    exception, and the file it leaves behind has no summary. *)
Theorem report_aborts (api : string -> option envelope)
  (tenants : list tenant) (t : tenant) (contracts : list contract)
  (c : contract) (e : exn) :
  eval api get_tenants = Ok tenants ->
  t ∈ tenants ->
  eval api (get_contracts (t_dn t)) = Ok contracts ->
  c ∈ contracts ->
  eval api (get_contract_relationships (c_dn c)) = Err e ->
  (exists e', eval api generate_complete_report = Err e') /\
  Forall (fun o => is_summary o = false)
    (written (trace api generate_complete_report)).
Proof.
  intros Hts Ht Hcs Hc He.
  assert (Hpass : exists e',
    eval api (for_each report_tenant tenants (Stats 0 0 0)) = Err e').
  { apply (for_each_fails api report_tenant tenants t Ht). intros st.
    unfold report_tenant. rewrite eval_bind, Hcs.
    destruct contracts as [|c0 cs] eqn:Ec; [by apply elem_of_nil in Hc|].
    cbn [is_empty]. rewrite tenant_section_eval.
    apply (for_each_fails api write_contract _ c).
    - by apply elem_of_sorted.
    - intros st'. exists e. unfold write_contract. by rewrite eval_bind, He. }
  destruct Hpass as [e' Hpass].
  unfold generate_complete_report. split.
  - exists e'. rewrite eval_bind, Hts, eval_bind.
    change (eval api _write_header) with (Ok tt).
    by rewrite eval_bind, Hpass.
  - rewrite trace_bind, written_app, Hts.
    rewrite (written_reads_only api _ ro_get_tenants), app_nil_l.
    rewrite trace_bind, written_app.
    change (eval api _write_header) with (Ok tt).
    change (written (trace api _write_header)) with [Header].
    constructor; [done|].
    rewrite trace_bind, written_app, Hpass, app_nil_r.
    apply report_pass_no_summary.
Qed.

(** * The layout of the report *)

(** ** Counting characters *)

Lemma len_app (a b : string) : len (a ++ b)%string = len a + len b.
Proof.
  induction a as [|c a IH]; [done|].
  rewrite append_cons. simpl. rewrite IH. lia.
Qed.

Lemma len_take_chars (n : nat) (s : string) :
  len (take_chars n s) = Nat.min n (len s).
Proof.
  revert n. induction s as [|c s IH]; intros n; simpl.
  - by rewrite Nat.min_0_r.
  - destruct (is_continuation c) eqn:E; simpl; rewrite ?E.
    + apply IH.
    + destruct n as [|n]; simpl; [done|]. rewrite E, IH. done.
Qed.

Lemma take_chars_all (n : nat) (s : string) :
  len s <= n -> take_chars n s = s.
Proof.
  revert n. induction s as [|c s IH]; intros n; simpl; [done|].
  destruct (is_continuation c) eqn:E; simpl.
  - intros H. by rewrite IH.
  - destruct n as [|n]; [lia|]. intros H. rewrite IH; [done | lia].
Qed.

Lemma len_repeat_space (n : nat) : len (repeat_string " " n) = n.
Proof.
  induction n as [|n IH]; [done|].
  cbn [repeat_string]. by rewrite len_app, IH.
Qed.

Lemma len_times_space (k : Z) : len (times " " k) = Z.to_nat k.
Proof. apply len_repeat_space. Qed.

Lemma append_empty_r (s : string) : (s ++ "")%string = s.
Proof. induction s as [|c s IH]; [done|]. by rewrite append_cons, IH. Qed.

Lemma list_index_nat {A : Type} (l : list A) (i : nat) :
  list_index l (Z.of_nat i) = l !! i.
Proof.
  unfold list_index. rewrite (proj2 (Z.leb_le 0 (Z.of_nat i))) by lia.
  by rewrite Nat2Z.id.
Qed.

(** ** One column *)

Lemma format_left_len (s : string) (width : Z) :
  (0 <= width)%Z ->
  exists r, Render.format_left s width = Render.Returns r /\
            len r = Nat.max (len s) (Z.to_nat width).
Proof.
  intros Hw. unfold Render.format_left.
  rewrite (proj2 (Z.ltb_ge width 0)) by lia.
  eexists. split; [reflexivity|].
  rewrite len_app, len_times_space. lia.
Qed.

Lemma format_column_len (lines : list string) (i : nat) (width : Z) :
  (3 <= width)%Z ->
  exists r,
    Render._format_column_content lines (Z.of_nat i) width = Render.Returns r /\
    len r = Z.to_nat width.
Proof.
  intros Hw. unfold Render._format_column_content.
  destruct (Z.ltb_spec (Z.of_nat i) (Z.of_nat (List.length lines))) as [Hi | Hi].
  - unfold Render.subscript_list. rewrite list_index_nat.
    destruct (lookup_lt_is_Some_2 lines i) as [content Hc]; [lia|].
    rewrite Hc. cbn [Render.and_then].
    unfold Render.format_left. rewrite (proj2 (Z.ltb_ge width 0)) by lia.
    eexists. split; [reflexivity|].
    rewrite len_app, len_times_space.
    destruct (Z.ltb_spec width (Z.of_nat (len content))) as [Hlen | Hlen].
    + unfold slice_to. rewrite (proj2 (Z.leb_le 0 (width - 3))) by lia.
      rewrite len_app, len_take_chars. simpl len. lia.
    + lia.
  - eexists. split; [reflexivity|]. apply len_times_space.
Qed.


(** ** The lines of a column *)




(** X13.  In the lines of an EPG that has subnets the last subnet, and only
    the last, is drawn with the closing branch; an EPG without subnets gets
    the closing branch and the words "Aucun subnet"; a blank line follows
    unless the EPG is the last of its list. *)
Theorem epg_lines_branches (n i : nat) (e : epg) :
  let header :=
    ((if String.eqb (e_type e) "external" then "Ext-EPG" else "EPG")
     ++ ": " ++ e_name e)%string in
  let blank := if Nat.ltb i (n - 1) then [""] else [] in
  (e_subnets e = [] ->
   Render.epg_lines n i e = [header; "  └─ Aucun subnet"] ++ blank) /\
  (forall ss s,
     e_subnets e = ss ++ [s] ->
     Render.epg_lines n i e =
       [header] ++
       map (fun x => ("  ├─ " ++ Render.subnet_display (e_type e) x)%string) ss ++
       [("  └─ " ++ Render.subnet_display (e_type e) s)%string] ++ blank).
Proof.
  cbn zeta. unfold Render.epg_lines. split.
  - by intros ->.
  - intros ss s Hs. rewrite Hs.
    assert (is_empty (ss ++ [s]) = false) as -> by (by destruct ss).
    cbn [negb]. rewrite length_app. cbn [List.length].
    replace (List.length ss + 1 - 1) with (List.length ss) by lia.
    rewrite imap_app. cbn [imap]. rewrite Nat.add_0_r, Nat.eqb_refl.
    rewrite <- !app_assoc. do 2 f_equal.
    apply list_eq. intros j. rewrite list_lookup_imap, list_lookup_fmap.
    destruct (ss !! j) as [x|] eqn:Hj; [|done]. simpl.
    apply lookup_lt_Some in Hj.
    rewrite (proj2 (Nat.eqb_neq j (List.length ss))) by lia. done.
Qed.

Lemma subnet_display_len (epg_type : string) (s : subnet) :
  len (s_ip s) + len (s_type s) <= 51 ->
  len (Render.subnet_display epg_type s) <= 58.
Proof.
  intros H. unfold Render.subnet_display, PROVIDER_COLUMN_WIDTH.
  destruct (String.eqb epg_type "external");
    destruct (negb (String.eqb (s_description s) ""));
    repeat (rewrite ?len_app; cbn [len is_continuation andb negb]);
    try lia.
  - match goal with |- context [Z.ltb ?a ?b] =>
      destruct (Z.ltb_spec a b) as [Hl | Hl] end;
      rewrite !len_app in *; cbn [len is_continuation andb negb Nat.add] in *.
    + unfold slice_to.
      match goal with |- context [Z.leb 0 ?a] =>
        rewrite (proj2 (Z.leb_le 0 a)) by lia end.
      rewrite len_take_chars. lia.
    + lia.
  - match goal with |- context [Z.ltb ?a ?b] =>
      destruct (Z.ltb_spec a b) as [Hl | Hl] end;
      rewrite !len_app in *; cbn [len is_continuation andb negb Nat.add] in *.
    + unfold slice_to.
      match goal with |- context [Z.leb 0 ?a] =>
        rewrite (proj2 (Z.leb_le 0 a)) by lia end.
      rewrite len_take_chars. lia.
    + lia.
Qed.

Lemma build_epg_lines_elem (epgs : list epg) (line : string) :
  line ∈ Render._build_epg_lines epgs ->
  exists e i, e ∈ epgs /\ line ∈ Render.epg_lines (List.length epgs) i e.
Proof.
  unfold Render._build_epg_lines. intros (ls & Hl & Hls)%list_elem_of_join.
  apply list_elem_of_lookup in Hls as [i Hi].
  rewrite list_lookup_imap in Hi.
  destruct (epgs !! i) as [e|] eqn:He; [|done]. injection Hi as <-.
  exists e, i. split; [by eapply list_elem_of_lookup_2 | done].
Qed.

Lemma epg_lines_fit (n i : nat) (e : epg) (line : string) :
  len (e_name e) <= 56 ->
  Forall (fun s => len (s_ip s) + len (s_type s) <= 51) (e_subnets e) ->
  line ∈ Render.epg_lines n i e -> len line <= 65.
Proof.
  intros Hname Hsub. unfold Render.epg_lines.
  rewrite !elem_of_app. intros [Hh | [Hs | Hb]].
  - apply list_elem_of_singleton in Hh as ->.
    rewrite !len_app. destruct (String.eqb (e_type e) "external"); simpl; lia.
  - destruct (negb (is_empty (e_subnets e))).
    + apply list_elem_of_lookup in Hs as [j Hj].
      rewrite list_lookup_imap in Hj.
      destruct (e_subnets e !! j) as [s|] eqn:Hs; [|done]. injection Hj as <-.
      rewrite Forall_forall in Hsub.
      pose proof (subnet_display_len (e_type e) s
                    (Hsub s (list_elem_of_lookup_2 _ _ _ Hs))) as Hd.
      rewrite !len_app.
      destruct (Nat.eqb j (List.length (e_subnets e) - 1)); simpl; lia.
    + apply list_elem_of_singleton in Hs as ->. simpl. lia.
  - destruct (Nat.ltb i (n - 1)).
    + apply list_elem_of_singleton in Hb as ->. simpl. lia.
    + by apply elem_of_nil in Hb.
Qed.

(** X14.  When the names of the EPGs have at most 56 characters and the ip
    and the type of every subnet at most 51 together, no line
    [_build_epg_lines] gives has more than 65 characters, descriptions being
    cut to that end, and [_format_column_content] shows every one of them
    in full in the provider column, followed by blanks. *)
Theorem build_epg_lines_fit (epgs : list epg) :
  Forall (fun e =>
            len (e_name e) <= 56 /\
            Forall (fun s => len (s_ip s) + len (s_type s) <= 51) (e_subnets e))
    epgs ->
  Forall (fun line => len line <= 65) (Render._build_epg_lines epgs) /\
  forall i line,
    Render._build_epg_lines epgs !! i = Some line ->
    Render._format_column_content (Render._build_epg_lines epgs) (Z.of_nat i)
      PROVIDER_COLUMN_WIDTH =
    Render.Returns
      (line ++ times " " (PROVIDER_COLUMN_WIDTH - Z.of_nat (len line)))%string.
Proof.
  intros Hfit.
  assert (Hlines : Forall (fun line => len line <= 65) (Render._build_epg_lines epgs)).
  { apply Forall_forall. intros line Hl.
    apply build_epg_lines_elem in Hl as (e & i & He & Hl).
    rewrite Forall_forall in Hfit. destruct (Hfit e He) as [Hn Hs].
    by eapply epg_lines_fit. }
  split; [done|]. intros i line Hi.
  unfold Render._format_column_content, PROVIDER_COLUMN_WIDTH.
  pose proof (lookup_lt_Some _ _ _ Hi) as Hlt.
  rewrite (proj2 (Z.ltb_lt (Z.of_nat i) _)) by lia.
  unfold Render.subscript_list. rewrite list_index_nat, Hi.
  cbn [Render.and_then].
  rewrite Forall_forall in Hlines.
  pose proof (Hlines line (list_elem_of_lookup_2 _ _ _ Hi)) as Hlen.
  rewrite (proj2 (Z.ltb_ge 65 (Z.of_nat (len line)))) by lia.
  done.
Qed.

(** ** The two columns side by side *)

Lemma for_list_Forall2 {A B : Type} (f : A -> Render.outcome B)
  (P : A -> B -> Prop) (l : list A) :
  (forall x, x ∈ l -> exists y, f x = Render.Returns y /\ P x y) ->
  exists ys, Render.for_list f l = Render.Returns ys /\ Forall2 P l ys.
Proof.
  induction l as [|x l IH]; intros H.
  - exists []. split; [done | constructor].
  - destruct (H x) as (y & Hy & HP); [by left|].
    destruct IH as (ys & Hys & HF); [intros z Hz; apply H; by right|].
    exists (y :: ys). cbn [Render.for_list]. rewrite Hy. cbn [Render.and_then].
    rewrite Hys. split; [done | by constructor].
Qed.

(** X15.  [_write_contract_details] raises nothing.  It writes the title of
    the contract, the two column headers, the rule, then as many rows as the
    longer of the two columns has lines, then a blank line.  Every row is
    two blanks, 65 characters of provider column, one blank and the consumer
    line as [_build_epg_lines] gives it -- never cut, never padded -- so
    the consumer text starts 68 characters into the row. *)
Theorem write_contract_details_rows (c : contract) (providers consumers : list epg) :
  let provider_lines := Render._build_epg_lines providers in
  let consumer_lines := Render._build_epg_lines consumers in
  exists rows,
    Render._write_contract_details c providers consumers =
      Render.Returns
        ([("CONTRACT: " ++ c_name c ++ newline)%string;
          ("  " ++ "PROVIDERS" ++ times " " 56 ++ " " ++ "CONSUMERS" ++ newline)%string;
          ("  " ++ times "─" 65 ++ " " ++ times "─" 65 ++ newline)%string]
         ++ rows ++ [newline]) /\
    List.length rows =
      Nat.max (List.length provider_lines) (List.length consumer_lines) /\
    forall i row,
      rows !! i = Some row ->
      exists p,
        row = ("  " ++ p ++ " " ++ default "" (consumer_lines !! i) ++ newline)%string /\
        len p = 65.
Proof.
  cbn zeta. unfold Render._write_contract_details.
  set (pl := Render._build_epg_lines providers).
  set (cl := Render._build_epg_lines consumers).
  set (f := fun i : nat => Render.and_then _ _).
  destruct (for_list_Forall2 f
    (fun i row => exists p,
       row = ("  " ++ p ++ " " ++ default "" (cl !! i) ++ newline)%string /\
       len p = 65)
    (seq 0 (Nat.max (List.length pl) (List.length cl)))) as (rows & Hrows & HF).
  { intros i _. unfold f.
    destruct (format_column_len pl i PROVIDER_COLUMN_WIDTH) as (p & -> & Hp);
      [unfold PROVIDER_COLUMN_WIDTH; lia|].
    cbn [Render.and_then].
    destruct (Nat.ltb_spec i (List.length cl)) as [Hi | Hi].
    - unfold Render.subscript_list. rewrite list_index_nat.
      destruct (lookup_lt_is_Some_2 cl i Hi) as [x Hx]. rewrite Hx.
      cbn [Render.and_then default]. eexists. split; [reflexivity|].
      exists p. split; [done|]. exact Hp.
    - rewrite lookup_ge_None_2 by lia.
      cbn [Render.and_then default]. eexists. split; [reflexivity|].
      exists p. split; [done|]. exact Hp. }
  exists rows.
  change (Render.format_left "PROVIDERS" PROVIDER_COLUMN_WIDTH)
    with (Render.Returns ("PROVIDERS" ++ times " " 56)%string).
  cbn [Render.and_then]. rewrite Hrows. cbn [Render.and_then].
  split; [done|].
  split.
  - apply Forall2_length in HF. by rewrite length_seq in HF.
  - intros i row Hi.
    destruct (Forall2_lookup_r _ _ _ i row HF Hi) as (j & Hj & HP).
    apply lookup_seq in Hj as [-> _]. exact HP.
Qed.

Lemma append_assoc (a b c : string) :
  ((a ++ b) ++ c)%string = (a ++ b ++ c)%string.
Proof. induction a as [|x a IH]; [done|]. by rewrite !append_cons, IH. Qed.

(** X16.  The head of a tenant section is the tenant's name, blanks, and
    the names of its VRFs separated by commas, or "Aucun VRF" when it has
    none.  The VRFs start 66 characters into the line whenever the name has
    at most 57 characters, and one blank after the name otherwise. *)
Theorem tenant_header_layout (t : tenant) :
  exists k rule,
    Render.tenant_header t =
      [("TENANT: " ++ t_name t ++ repeat_string " " k ++ "VRFs: " ++
        (if is_empty (t_vrfs t) then "Aucun VRF"
         else String.concat ", " (map v_name (t_vrfs t))) ++ newline)%string;
       rule] /\
    8 + len (t_name t) + k = Nat.max 66 (len (t_name t) + 9).
Proof.
  unfold Render.tenant_header, PROVIDER_COLUMN_WIDTH.
  set (spacing := (65 + 1 - Z.of_nat (len ("TENANT: " ++ t_name t)))%Z).
  exists (Z.to_nat (if (spacing <? 1)%Z then 1%Z else spacing)).
  eexists. split.
  - f_equal. unfold times. rewrite !append_assoc.
    destruct (is_empty (t_vrfs t)); cbn [negb]; reflexivity.
  - subst spacing. rewrite len_app.
    cbn [len is_continuation andb negb Nat.add].
    match goal with |- context [Z.ltb ?a ?b] =>
      destruct (Z.ltb_spec a b) end; lia.
Qed.

(** * The session and the console *)

Lemma rstrip_slash_snoc (s : string) :
  rstrip_slash (s ++ "/")%string = rstrip_slash s.
Proof.
  induction s as [|c s IH]; [done|].
  rewrite append_cons. cbn [rstrip_slash]. by rewrite IH.
Qed.

Lemma rstrip_slash_last (s : string) : last_char (rstrip_slash s) <> Some "/"%char.
Proof.
  induction s as [|c s IH]; [done|]. cbn [rstrip_slash].
  destruct (rstrip_slash s) as [|d r] eqn:E.
  - destruct (Ascii.eqb_spec c "/"); [done|]. simpl. congruence.
  - exact IH.
Qed.

(** X17.  The address a session is created with may end in any number of
    slashes: they are dropped, what is kept does not end in a slash, and
    the requests go to the same URL as without them. *)
Theorem request_url_trailing_slashes (apic_url url_path : string) (n : nat) :
  request_url (apic_url ++ repeat_string "/" n) url_path =
    request_url apic_url url_path /\
  last_char (rstrip_slash apic_url) <> Some "/"%char /\
  rstrip_slash (rstrip_slash apic_url) = rstrip_slash apic_url.
Proof.
  split; [|split].
  - unfold request_url. f_equal.
    induction n as [|n IH]; cbn [repeat_string].
    + by rewrite append_empty_r.
    + replace ("/" ++ repeat_string "/" n)%string
        with (repeat_string "/" n ++ "/")%string.
      * by rewrite <- append_assoc, rstrip_slash_snoc.
      * clear. induction n as [|n IH]; [done|].
        cbn [repeat_string]. rewrite append_assoc, IH. done.
  - apply rstrip_slash_last.
  - induction apic_url as [|c s IH]; [done|]. cbn [rstrip_slash].
    destruct (rstrip_slash s) as [|d r] eqn:E.
    + destruct (Ascii.eqb_spec c "/") as [->|Hc]; [done|].
      cbn [rstrip_slash]. by rewrite (proj2 (Ascii.eqb_neq c "/") Hc).
    + cbn [rstrip_slash] in *. by rewrite IH.
Qed.

(** ** Prompts *)

Lemma list_index_in_range {A : Type} (l : list A) (choice : Z) :
  (1 <= choice <= Z.of_nat (List.length l))%Z ->
  exists x, list_index l (choice - 1) = Some x /\
            l !! Z.to_nat (choice - 1) = Some x.
Proof.
  intros H. unfold list_index.
  rewrite (proj2 (Z.leb_le 0 (choice - 1))) by lia.
  destruct (lookup_lt_is_Some_2 l (Z.to_nat (choice - 1))) as [x Hx]; [lia|].
  by exists x.
Qed.

Lemma in_range_spec (choice : Z) (n : nat) :
  ((1 <=? choice) && (choice <=? Z.of_nat n))%Z = true <->
  (1 <= choice <= Z.of_nat n)%Z.
Proof. rewrite andb_true_iff, !Z.leb_le. done. Qed.

Lemma select_from_sorted_spec (contracts contracts_sorted : list contract)
  (inputs : list (option Z)) :
  List.length contracts_sorted = List.length contracts ->
  match select_from_sorted contracts contracts_sorted inputs with
  | Chosen c rest =>
      exists skipped choice,
        inputs = skipped ++ Some choice :: rest /\
        Forall (turned_down (List.length contracts)) skipped /\
        (1 <= choice <= Z.of_nat (List.length contracts))%Z /\
        contracts_sorted !! Z.to_nat (choice - 1) = Some c
  | EndOfInput => Forall (turned_down (List.length contracts)) inputs
  | BadIndex => False
  end.
Proof.
  intros Hlen. induction inputs as [|line rest IH]; [constructor|].
  cbn [select_from_sorted]. destruct line as [choice|].
  - destruct ((1 <=? choice) && _)%Z eqn:E.
    + apply in_range_spec in E.
      destruct (list_index_in_range contracts_sorted choice) as (c & -> & Hc);
        [by rewrite Hlen|].
      exists [], choice. repeat split; auto; lia.
    + assert (Hdown : turned_down (List.length contracts) (Some choice)).
      { simpl. intros H. apply in_range_spec in H. congruence. }
      destruct (select_from_sorted contracts contracts_sorted rest) as [c r| |].
      * destruct IH as (skipped & ch & -> & Hs & Hr & Hc).
        exists (Some choice :: skipped), ch. repeat split; auto; lia.
      * by constructor.
      * done.
  - destruct (select_from_sorted contracts contracts_sorted rest) as [c r| |].
    + destruct IH as (skipped & ch & -> & Hs & Hr & Hc).
      exists (None :: skipped), ch. repeat split; auto; try lia.
      by constructor.
    + by constructor.
    + done.
Qed.

(** X18.  [_select_tenant] skips every line that is not a number between 1
    and the number of tenants and returns the tenant listed under the first
    line that is; it never indexes outside the list, and it ends in
    [EOFError] only when every line was turned down -- as every line is when
    the list is empty. *)
Theorem select_tenant_spec (tenants : list tenant) (inputs : list (option Z)) :
  match _select_tenant tenants inputs with
  | Chosen t rest =>
      exists skipped choice,
        inputs = skipped ++ Some choice :: rest /\
        Forall (turned_down (List.length tenants)) skipped /\
        (1 <= choice <= Z.of_nat (List.length tenants))%Z /\
        tenants !! Z.to_nat (choice - 1) = Some t
  | EndOfInput => Forall (turned_down (List.length tenants)) inputs
  | BadIndex => False
  end.
Proof.
  induction inputs as [|line rest IH]; [constructor|].
  cbn [_select_tenant]. destruct line as [choice|].
  - destruct ((1 <=? choice) && _)%Z eqn:E.
    + apply in_range_spec in E.
      destruct (list_index_in_range tenants choice E) as (t & -> & Ht).
      exists [], choice. repeat split; auto; lia.
    + assert (Hdown : turned_down (List.length tenants) (Some choice)).
      { simpl. intros H. apply in_range_spec in H. congruence. }
      destruct (_select_tenant tenants rest) as [t r| |].
      * destruct IH as (skipped & ch & -> & Hs & Hr & Ht).
        exists (Some choice :: skipped), ch. repeat split; auto; lia.
      * by constructor.
      * done.
  - destruct (_select_tenant tenants rest) as [t r| |].
    + destruct IH as (skipped & ch & -> & Hs & Hr & Ht).
      exists (None :: skipped), ch. repeat split; auto; try lia.
      by constructor.
    + by constructor.
    + done.
Qed.

(** X19.  [_select_contract] checks the number typed against the list it
    was given and indexes the sorted list: the two have the same length, so
    it never indexes outside, and the contract returned is the one at that
    rank in the order of the names -- a contract of the list. *)
Theorem select_contract_spec (contracts : list contract)
  (inputs : list (option Z)) :
  match _select_contract contracts inputs with
  | Chosen c rest =>
      exists skipped choice,
        inputs = skipped ++ Some choice :: rest /\
        Forall (turned_down (List.length contracts)) skipped /\
        (1 <= choice <= Z.of_nat (List.length contracts))%Z /\
        sorted contracts c_name !! Z.to_nat (choice - 1) = Some c /\
        c ∈ contracts
  | EndOfInput => Forall (turned_down (List.length contracts)) inputs
  | BadIndex => False
  end.
Proof.
  unfold _select_contract.
  pose proof (select_from_sorted_spec contracts (sorted contracts c_name) inputs
                (Permutation_length (sorted_perm c_name contracts))) as H.
  destruct (select_from_sorted contracts (sorted contracts c_name) inputs)
    as [c rest| |]; [|done|done].
  destruct H as (skipped & choice & Hi & Hs & Hr & Hc).
  exists skipped, choice. repeat split; auto; try lia.
  eapply elem_of_sorted, list_elem_of_lookup_2, Hc.
Qed.

(** ** Display *)



(** * The scenario *)

(** The fabric above through the analyser: each statement at the objects of
    the scenario it speaks about. *)

Lemma external_epg_resolution_witness :
  str_in "/out-" "uni/tn-T1/out-L3/instP-EPG-B" = true /\
  eval fabric (_get_epg_info "uni/tn-T1/out-L3/instP-EPG-B") = Ok (Some EPG_B) /\
  e_type EPG_B = "external" /\
  Forall2 (fun it s =>
             exists a, attributes it "l3extSubnet" = Some a /\
                       s_description s = default "" (a !! "name"))
    (records (fabric (children_url "uni/tn-T1/out-L3/instP-EPG-B" "l3extSubnet")))
    (e_subnets EPG_B).
Proof.
  split; [reflexivity|]. split; [vm_compute; reflexivity|].
  apply (external_epg_resolution fabric "uni/tn-T1/out-L3/instP-EPG-B");
    vm_compute; reflexivity.
Defined.

Lemma internal_epg_resolution_witness :
  str_in "/out-" "uni/tn-T1/ap-A/epg-EPG-A" = false /\
  eval fabric (_get_epg_info "uni/tn-T1/ap-A/epg-EPG-A") = Ok (Some EPG_A) /\
  e_type EPG_A = "internal" /\
  bd_lookups (trace fabric (_get_epg_info "uni/tn-T1/ap-A/epg-EPG-A")) = 1 /\
  match records (fabric (children_url "uni/tn-T1/ap-A/epg-EPG-A" "fvRsBd")) with
  | [] =>
      trace fabric (_get_epg_info "uni/tn-T1/ap-A/epg-EPG-A") =
        [Fetch (mo_url "uni/tn-T1/ap-A/epg-EPG-A");
         Fetch (children_url "uni/tn-T1/ap-A/epg-EPG-A" "fvRsBd")] /\
      e_subnets EPG_A = []
  | it :: _ =>
      exists bd_dn,
        attribute it "fvRsBd" "tDn" = Some bd_dn /\
        trace fabric (_get_epg_info "uni/tn-T1/ap-A/epg-EPG-A") =
          [Fetch (mo_url "uni/tn-T1/ap-A/epg-EPG-A");
           Fetch (children_url "uni/tn-T1/ap-A/epg-EPG-A" "fvRsBd");
           Fetch (children_url bd_dn "fvSubnet")] /\
        Forall2 (fun it' s =>
                   exists a, attributes it' "fvSubnet" = Some a /\
                             s_description s = default "" (a !! "descr"))
          (records (fabric (children_url bd_dn "fvSubnet"))) (e_subnets EPG_A)
  end.
Proof.
  split; [reflexivity|]. split; [vm_compute; reflexivity|].
  apply (internal_epg_resolution fabric "uni/tn-T1/ap-A/epg-EPG-A");
    vm_compute; reflexivity.
Defined.

(** The claim as first stated asks for one Bridge-Domain lookup on every
    path without the marker: the path of the vanished EPG has none, is not
    external, and resolves to [None] after the fetch of the object alone. *)
Lemma internal_epg_resolution_counterexample :
  str_in "/out-" "uni/tn-T1/ap-A/epg-gone" = false /\
  eval fabric (_get_epg_info "uni/tn-T1/ap-A/epg-gone") = Ok None /\
  trace fabric (_get_epg_info "uni/tn-T1/ap-A/epg-gone") =
    [Fetch (mo_url "uni/tn-T1/ap-A/epg-gone")] /\
  bd_lookups (trace fabric (_get_epg_info "uni/tn-T1/ap-A/epg-gone")) <> 1.
Proof. repeat split; vm_compute; congruence. Qed.

Lemma subnet_scope_tag_witness :
  eval fabric (_get_epg_info "uni/tn-T1/out-L3/instP-EPG-B") = Ok (Some EPG_B) /\
  (e_type EPG_B = "external" ->
   Forall2 (fun it s =>
      exists a, attributes it "l3extSubnet" = Some a /\
        forall scope, a !! "scope" = Some scope ->
          ((exists pre post, scope = (pre ++ "export-rtctrl" ++ post)%string) ->
           s_type s = "exp") /\
          (scope <> "" ->
           ~ (exists pre post, scope = (pre ++ "export-rtctrl" ++ post)%string) ->
           s_type s = "ext"))
     (records (fabric (children_url "uni/tn-T1/out-L3/instP-EPG-B" "l3extSubnet")))
     (e_subnets EPG_B)) /\
  (e_type EPG_B = "internal" ->
   Forall (fun s => s_type s = "internal" /\ s_type s <> "exp" /\ s_type s <> "ext")
     (e_subnets EPG_B)).
Proof.
  split; [vm_compute; reflexivity|].
  apply (subnet_scope_tag fabric "uni/tn-T1/out-L3/instP-EPG-B" EPG_B).
  vm_compute; reflexivity.
Defined.

Lemma subnet_scope_default_witness :
  str_in "/out-" "uni/tn-T1/out-L3/instP-EPG-B" = true /\
  eval fabric (_get_epg_info "uni/tn-T1/out-L3/instP-EPG-B") = Ok (Some EPG_B) /\
  Forall2 (fun it s =>
     exists a, attributes it "l3extSubnet" = Some a /\
       (a !! "scope" = None \/ a !! "scope" = Some "" -> s_type s = "ext") /\
       (s_type s = "exp" <->
        exists scope pre post,
          a !! "scope" = Some scope /\
          scope = (pre ++ "export-rtctrl" ++ post)%string) /\
       (s_type s = "exp" \/ s_type s = "ext"))
    (records (fabric (children_url "uni/tn-T1/out-L3/instP-EPG-B" "l3extSubnet")))
    (e_subnets EPG_B).
Proof.
  split; [reflexivity|]. split; [vm_compute; reflexivity|].
  apply (subnet_scope_default fabric "uni/tn-T1/out-L3/instP-EPG-B" EPG_B);
    vm_compute; reflexivity.
Defined.

Lemma get_epg_info_no_data_witness :
  records (fst (counting fabric 0 (mo_url "uni/tn-T1/ap-A/epg-gone"))) = [] /\
  fst (fst (run (counting fabric) (_get_epg_info "uni/tn-T1/ap-A/epg-gone") 0)) =
    Ok None /\
  snd (run (counting fabric) (_get_epg_info "uni/tn-T1/ap-A/epg-gone") 0) =
    [Fetch (mo_url "uni/tn-T1/ap-A/epg-gone")].
Proof.
  split; [vm_compute; reflexivity|].
  apply (get_epg_info_no_data (counting fabric) 0 "uni/tn-T1/ap-A/epg-gone").
  vm_compute; reflexivity.
Defined.

Lemma relationships_drop_unresolved_witness :
  let l := records (fabric (children_url "uni/tn-T1/brc-C1" "vzRtProv,vzRtCons")) in
  l = [record "vzRtProv" [("tDn", "uni/tn-T1/ap-A/epg-EPG-A")]] ++
      record "vzRtCons" [("tDn", "uni/tn-T1/ap-A/epg-gone")] ::
      [record "vzRtCons" [("tDn", "uni/tn-T1/out-L3/instP-EPG-B")]] /\
  records (fabric (mo_url "uni/tn-T1/ap-A/epg-gone")) = [] /\
  eval fabric (get_contract_relationships "uni/tn-T1/brc-C1") =
    Ok ([EPG_A], [EPG_B]) /\
  [EPG_A] = omap (provider_of fabric) l /\
  [EPG_B] = omap (consumer_of fabric) l /\
  eval fabric (get_contract_relationships "uni/tn-T1/brc-C1") =
    eval fabric
      (for_each resolve_relation
         ([record "vzRtProv" [("tDn", "uni/tn-T1/ap-A/epg-EPG-A")]] ++
          [record "vzRtCons" [("tDn", "uni/tn-T1/out-L3/instP-EPG-B")]])
         ([], [])).
Proof.
  destruct (relationships_drop_unresolved fabric "uni/tn-T1/brc-C1") as [H1 H2].
  assert (He : eval fabric (get_contract_relationships "uni/tn-T1/brc-C1") =
               Ok ([EPG_A], [EPG_B])) by (vm_compute; reflexivity).
  split; [vm_compute; reflexivity|]. split; [vm_compute; reflexivity|].
  split; [exact He|].
  destruct (H1 _ _ He) as [Hp Hc]. split; [exact Hp|]. split; [exact Hc|].
  eapply H2 with (target_dn := "uni/tn-T1/ap-A/epg-gone").
  - vm_compute; reflexivity.
  - right. split; vm_compute; reflexivity.
  - vm_compute; reflexivity.
Defined.

Lemma get_tenants_listing_witness :
  eval fabric get_tenants =
    Ok [Tenant "A0" "uni/tn-A0" []; T1; Tenant "T2" "uni/tn-T2" []] /\
  Forall (fun t => t_name t ∉ EXCLUDED_TENANTS)
    [Tenant "A0" "uni/tn-A0" []; T1; Tenant "T2" "uni/tn-T2" []] /\
  ascending t_name [Tenant "A0" "uni/tn-A0" []; T1; Tenant "T2" "uni/tn-T2" []] /\
  forall it a name dn,
    it ∈ records (fabric "/node/class/fvTenant.json") ->
    attributes it "fvTenant" = Some a ->
    a !! "name" = Some name -> a !! "dn" = Some dn ->
    name ∉ EXCLUDED_TENANTS ->
    records (fabric (children_url dn "fvCtx")) = [] ->
    Tenant name dn [] ∈ [Tenant "A0" "uni/tn-A0" []; T1; Tenant "T2" "uni/tn-T2" []].
Proof.
  split; [vm_compute; reflexivity|].
  apply (get_tenants_listing fabric). vm_compute; reflexivity.
Defined.

Lemma get_tenants_idempotent_witness :
  quiescent (counting fabric) /\
  fst (fst (run (counting fabric) get_tenants
              (snd (fst (run (counting fabric) get_tenants 0))))) =
  fst (fst (run (counting fabric) get_tenants 0)).
Proof.
  assert (Hq : quiescent (counting fabric)) by (intros w u u'; reflexivity).
  split; [exact Hq|].
  apply (get_tenants_idempotent (counting fabric) 0 Hq).
Defined.

Lemma empty_contract_omitted_witness :
  eval fabric (get_contract_relationships (c_dn C0)) = Ok ([], []) /\
  eval fabric (_write_tenant_section T1 [C1; C0] (Stats 2 0 0)) = Ok (Stats 2 1 1) /\
  eval fabric (_write_tenant_section T1 [C1] (Stats 2 0 0)) = Ok (Stats 2 1 1) /\
  written (trace fabric (_write_tenant_section T1 ([C1] ++ C0 :: []) (Stats 2 0 0))) =
    written (trace fabric (_write_tenant_section T1 ([C1] ++ []) (Stats 2 0 0))) /\
  written (trace fabric (_write_tenant_section T1 [C1; C0] (Stats 2 0 0))) =
    TenantHeader T1 :: flat_map (contract_entry fabric) (sorted [C1; C0] c_name).
Proof.
  destruct (empty_contract_omitted fabric T1) as (_ & H2 & H3 & _).
  assert (H0 : eval fabric (get_contract_relationships (c_dn C0)) = Ok ([], []))
    by (vm_compute; reflexivity).
  assert (He : eval fabric (_write_tenant_section T1 [C1; C0] (Stats 2 0 0)) =
               Ok (Stats 2 1 1)) by (vm_compute; reflexivity).
  destruct (H2 [C1] C0 [] (Stats 2 0 0) H0) as [H2e H2w].
  split; [exact H0|]. split; [exact He|].
  split; [rewrite <- He; symmetry; exact H2e|].
  split; [exact H2w|].
  exact (proj1 (H3 _ _ _ He)).
Defined.

Lemma tenants_analysed_refetched_witness :
  run (counting fabric) generate_complete_report 0 =
    (Ok (Stats 3 1 1), 19,
     snd (run (counting fabric) generate_complete_report 0)) /\
  exists tenants w1 t1 w2 t2 n,
    run (counting fabric) get_tenants 0 = (Ok tenants, w1, t1) /\
    run (counting fabric) (for_each report_tenant tenants (Stats 0 0 0)) w1 =
      (Ok (Stats 3 1 1), w2, t2) /\
    run (counting fabric) (tenants_with_contracts tenants) w2 =
      (Ok n, 19, map (fun x => Fetch (contracts_url x)) tenants) /\
    snd (run (counting fabric) generate_complete_report 0) =
      t1 ++ Wrote Header :: t2 ++ Wrote SummaryBanner ::
        map (fun x => Fetch (contracts_url x)) tenants ++
        [Wrote (SummaryFigures n (Stats 3 1 1))] /\
    (quiescent (counting fabric) ->
     n = List.length
           (List.filter (has_contracts (fun u => fst (counting fabric 0 u)))
              tenants)).
Proof.
  split; [vm_compute; reflexivity|].
  apply (tenants_analysed_refetched (counting fabric) 0 19 (Stats 3 1 1)
           (snd (run (counting fabric) generate_complete_report 0))).
  vm_compute; reflexivity.
Defined.

(** The excluded tenant of the scenario is not listed, wherever the raw answer
    has it; the description of an external subnet is its name, not its
    "descr"; and the two lists of C1 are those of the specification. *)
Example scenario_tenants :
  eval fabric get_tenants =
  Ok [Tenant "A0" "uni/tn-A0" []; T1; Tenant "T2" "uni/tn-T2" []].
Proof. vm_compute. reflexivity. Qed.

Example scenario_relationships :
  eval fabric (get_contract_relationships (c_dn C1)) = Ok ([EPG_A], [EPG_B]).
Proof. vm_compute. reflexivity. Qed.

(** T2 has one contract and that contract has no relation: the body of the
    report has no entry for it, the contract total counts it, and the
    tenant counts as analysed. *)
Example scenario_report :
  written (snd (run (counting fabric) generate_complete_report 0)) =
  [Header; TenantHeader T1; ContractDetails C1 [EPG_A] [EPG_B];
   TenantHeader (Tenant "T2" "uni/tn-T2" []); SummaryBanner;
   SummaryFigures 2 (Stats 3 1 1)].
Proof. vm_compute. reflexivity. Qed.

(** When the contracts vanish between the report pass and the summary, the
    figure follows the second fetch and the totals the first. *)
Example scenario_report_refetch :
  last (written (snd (run (forgetful fabric) generate_complete_report 0))) =
  Some (SummaryFigures 0 (Stats 3 1 1)).
Proof. vm_compute. reflexivity. Qed.

(** The further properties at the objects of the scenario, and at the fabric
    whose contract C0 is provided by a [vzAny]. *)

Lemma get_tenants_complete_witness :
  eval fabric get_tenants =
    Ok [Tenant "A0" "uni/tn-A0" []; T1; Tenant "T2" "uni/tn-T2" []] /\
  (exists names,
     Forall2 (fun it n => attribute it "fvTenant" "name" = Some n)
       (records (fabric "/node/class/fvTenant.json")) names /\
     map t_name [Tenant "A0" "uni/tn-A0" []; T1; Tenant "T2" "uni/tn-T2" []] ≡ₚ
       List.filter (fun n => bool_decide (n ∉ EXCLUDED_TENANTS)) names) /\
  (forall t, t ∈ [Tenant "A0" "uni/tn-A0" []; T1; Tenant "T2" "uni/tn-T2" []] <->
     exists it,
       it ∈ records (fabric "/node/class/fvTenant.json") /\
       attribute it "fvTenant" "name" = Some (t_name t) /\
       (t_name t ∉ EXCLUDED_TENANTS) /\
       attribute it "fvTenant" "dn" = Some (t_dn t) /\
       eval fabric (_get_tenant_vrfs (t_dn t)) = Ok (t_vrfs t)).
Proof.
  split; [vm_compute; reflexivity|].
  apply (get_tenants_complete fabric). vm_compute; reflexivity.
Defined.


Lemma epg_info_wrong_class_witness :
  records (fabric_any (mo_url "uni/tn-T1/ctx-V1/any")) =
    [record "vzAny" [("matchT", "AtleastOne")]] /\
  eval fabric_any (_get_epg_info "uni/tn-T1/ctx-V1/any") =
    Err (KeyError "fvAEPg") /\
  trace fabric_any (_get_epg_info "uni/tn-T1/ctx-V1/any") =
    [Fetch (mo_url "uni/tn-T1/ctx-V1/any")].
Proof.
  split; [vm_compute; reflexivity|].
  apply (epg_info_wrong_class fabric_any "uni/tn-T1/ctx-V1/any"
           (record "vzAny" [("matchT", "AtleastOne")]) []);
    vm_compute; reflexivity.
Defined.

Lemma relationships_abort_witness :
  eval fabric_any (_get_epg_info "uni/tn-T1/ctx-V1/any") =
    Err (KeyError "fvAEPg") /\
  eval fabric_any (get_contract_relationships (c_dn C0)) =
    Err (KeyError "fvAEPg").
Proof.
  split; [vm_compute; reflexivity|].
  apply (relationships_abort fabric_any (c_dn C0) []
           [] (record "vzRtProv" [("tDn", "uni/tn-T1/ctx-V1/any")])
           ([], []) "uni/tn-T1/ctx-V1/any").
  - vm_compute; reflexivity.
  - vm_compute; reflexivity.
  - left. vm_compute; reflexivity.
  - vm_compute; reflexivity.
Defined.

Lemma report_totals_match_body_witness :
  eval fabric generate_complete_report = Ok (Stats 3 1 1) /\
  let body := written (trace fabric generate_complete_report) in
  1 = sum_list_with providers_shown body /\
  1 = sum_list_with consumers_shown body /\
  (exists tenants,
     eval fabric get_tenants = Ok tenants /\
     3 = sum_list_with
           (fun t => List.length (records (fabric (contracts_url t)))) tenants) /\
  exists n, last body = Some (SummaryFigures n (Stats 3 1 1)).
Proof.
  split; [vm_compute; reflexivity|].
  apply (report_totals_match_body fabric (Stats 3 1 1)). vm_compute; reflexivity.
Defined.

Lemma report_sections_witness :
  eval fabric generate_complete_report = Ok (Stats 3 1 1) /\
  exists tenants,
    eval fabric get_tenants = Ok tenants /\
    omap section_of (written (trace fabric generate_complete_report)) =
      List.filter (has_contracts fabric) tenants /\
    ascending t_name
      (omap section_of (written (trace fabric generate_complete_report))).
Proof.
  split; [vm_compute; reflexivity|].
  apply (report_sections fabric (Stats 3 1 1)). vm_compute; reflexivity.
Defined.

Lemma report_aborts_witness :
  eval fabric_any (get_contract_relationships (c_dn C0)) =
    Err (KeyError "fvAEPg") /\
  (exists e', eval fabric_any generate_complete_report = Err e') /\
  Forall (fun o => is_summary o = false)
    (written (trace fabric_any generate_complete_report)).
Proof.
  split; [vm_compute; reflexivity|].
  apply (report_aborts fabric_any
           [Tenant "A0" "uni/tn-A0" []; T1; Tenant "T2" "uni/tn-T2" []]
           T1 [C1; C0] C0 (KeyError "fvAEPg")).
  - vm_compute; reflexivity.
  - apply list_elem_of_further, list_elem_of_here.
  - vm_compute; reflexivity.
  - apply list_elem_of_further, list_elem_of_here.
  - vm_compute; reflexivity.
Defined.


Lemma build_epg_lines_fit_witness :
  Forall (fun line => len line <= 65) (Render._build_epg_lines [EPG_A; EPG_B]) /\
  forall i line,
    Render._build_epg_lines [EPG_A; EPG_B] !! i = Some line ->
    Render._format_column_content (Render._build_epg_lines [EPG_A; EPG_B])
      (Z.of_nat i) PROVIDER_COLUMN_WIDTH =
    Render.Returns
      (line ++ times " " (PROVIDER_COLUMN_WIDTH - Z.of_nat (len line)))%string.
Proof.
  apply (build_epg_lines_fit [EPG_A; EPG_B]).
  repeat constructor; vm_compute; lia.
Defined.
